(** * zod-mongoose: translation of Zod schema nodes to Mongoose field descriptors

    A shallow embedding of [src/index.ts] (the recursive translator),
    [src/assertions/staticNames.ts] (the kind assertions) and
    [src/extension.ts] (registration and instance enhancement), followed by
    the properties of the translation stated in the specification. *)

From stdpp Require Import gmap strings list fin_maps.
From Stdlib Require Import ZArith.

Set Warnings "-register-all,-clear-no-such-hyp".
Open Scope string_scope.
Open Scope list_scope.

(** ** JavaScript values that flow through the translator *)

(** Functions are compared by reference: a closure is named by an identifier. *)
Inductive closure := Closure (id : nat).

(** Plain data such as the value configured on a Default wrapper. *)
Inductive jsval :=
| JUndefined
| JNull
| JBool (b : bool)
| JNum (n : Z)
| JStr (s : string).

(** [zm.EffectValidator]: the record [{validator, message}]. *)
Record EffectValidator := {
  validator : closure;
  message : option string;
}.

(** JavaScript truthiness of a possibly-undefined string. *)
Definition truthy (s : option string) : bool :=
  match s with
  | Some "" | None => false
  | Some _ => true
  end.

(** [a || b] on values that are objects or undefined. *)
Definition js_or {A} (a b : option A) : option A :=
  match a with
  | Some _ => a
  | None => b
  end.

(** ** Constraint records held in [_def.checks] *)

(** What calling [check.def.error()] does. *)
Inductive error_result :=
| ErrString (s : string)
| ErrObject (msg : option string)
| ErrOther
| ErrThrows.

Record check_def := {
  def_zm_validation : option EffectValidator; (* check.def.__zm_validation *)
  def_type : string;                          (* check.def.type *)
  def_fn : option closure;                    (* check.def.fn *)
  def_error : option error_result;            (* Some when check.def.error is a function *)
}.

Record check := {
  check_def_of : option check_def;              (* check.def *)
  check_zm_validation : option EffectValidator; (* check.__zm_validation *)
}.

(** ** Schema nodes *)

(** The properties every node object may carry next to its kind-specific
    definition: the extension attributes, the enhancement marker, the
    constraint list [_def.checks] and the constructor shown in errors. *)
Record props := {
  __zm_ref : option string;
  __zm_refPath : option string;
  __zm_unique : option bool;
  __zm_sparse : option bool;
  __zm_enhanced : bool;
  checks : option (list check);
  constructor : string;
}.

(** One constructor of [zkind] per value of the [__zm_type] tag that
    [zmAssert] tests, with the fields [parseField] reads for that tag.
    [KUnknown] is a node whose tag is absent or is none of those. *)
Inductive znode :=
| ZNode (own : props) (kind : zkind)
with zkind :=
| KObjectId
| KUUID
| KObject (shape : list (string * znode))
| KNumber (minValue maxValue : option Z)
| KString (minLength maxLength : option Z)
| KEnum (options : list string)
| KBoolean
| KDate
| KArray (element : znode)
| KDefault (innerType : znode) (defaultValue : jsval)
| KOptional (innerType : znode)
| KNullable (innerType : znode)
| KUnion (options : list znode)
| KAny
| KMap (valueType : znode)
| KRecord (valueType : znode)
| KPipe (in_ out : znode)
| KEffects (type : string) (in_ schema : option znode)
| KUnknown (type : string).

Definition node_props (f : znode) : props := let 'ZNode own _ := f in own.
Definition node_kind (f : znode) : zkind := let 'ZNode _ kind := f in kind.

(** The [__zm_type] tag a node reports: [extendZod] writes it on the
    prototypes listed in [TypesMap], [zId] and [zUUID] write it on the
    instance. *)
Definition __zm_type (f : znode) : option string :=
  match node_kind f with
  | KObjectId => Some "ObjectId"
  | KUUID => Some "UUID"
  | KObject _ => Some "Object"
  | KNumber _ _ => Some "Number"
  | KString _ _ => Some "String"
  | KEnum _ => Some "Enum"
  | KBoolean => Some "Boolean"
  | KDate => Some "Date"
  | KArray _ => Some "Array"
  | KDefault _ _ => Some "Default"
  | KOptional _ => Some "Optional"
  | KNullable _ => Some "Nullable"
  | KUnion _ => Some "Union"
  | KAny => Some "Any"
  | KMap _ => Some "Map"
  | KRecord _ => Some "Record"
  | KPipe _ _ => Some "Pipe"
  | KEffects _ _ _ => Some "Effects"
  | KUnknown _ => None
  end.

(** The [type] discriminator of the node's definition, which the pipe
    branch reads on both sides of a pipe. *)
Definition node_type (f : znode) : string :=
  match node_kind f with
  | KObjectId | KUUID | KUnion _ => "union"
  | KObject _ => "object"
  | KNumber _ _ => "number"
  | KString _ _ => "string"
  | KEnum _ => "enum"
  | KBoolean => "boolean"
  | KDate => "date"
  | KArray _ => "array"
  | KDefault _ _ => "default"
  | KOptional _ => "optional"
  | KNullable _ => "nullable"
  | KAny => "any"
  | KMap _ => "map"
  | KRecord _ => "record"
  | KPipe _ _ => "pipe"
  | KEffects t _ _ => t
  | KUnknown t => t
  end.

(** ** Kind assertions ([zmAssert]) *)

Module zmAssert.

Definition has_tag (tag : string) (f : znode) : bool :=
  bool_decide (__zm_type f = Some tag).

Definition string := has_tag "String".
Definition number := has_tag "Number".
Definition object := has_tag "Object".
Definition array := has_tag "Array".
Definition boolean := has_tag "Boolean".
Definition enumerable := has_tag "Enum".
Definition date := has_tag "Date".
Definition def := has_tag "Default".
Definition optional := has_tag "Optional".
Definition nullable := has_tag "Nullable".
Definition union := has_tag "Union".
Definition any := has_tag "Any".
Definition mapOrRecord (f : znode) : bool := has_tag "Map" f || has_tag "Record" f.
Definition effect := has_tag "Effects".
Definition pipe := has_tag "Pipe".

(** Modelled from the spec: the two identifier assertions,
    [zmAssert.objectId] and [zmAssert.uuid], whose source file is missing.
    The classifier "determines kind by inspecting a stable identity marker",
    and [zId] and [zUUID] set that marker to ["ObjectId"] and ["UUID"]. *)
Definition objectId := has_tag "ObjectId".
Definition uuid := has_tag "UUID".

End zmAssert.

(** ** Field descriptors *)

(** The storage-type tags of Mongoose that the translator emits. *)
Inductive mtype :=
| TString | TNumber | TBoolean | TDate | TMap | TObjectId | TUUID | TMixed.

(** What the translator passes as [def], the default-value provider. *)
Inductive mDefault :=
| DefaultValue (v : jsval)  (* () => field._def.defaultValue *)
| DefaultNull               (* () => null *)
| DefaultDef (type : string) (in_ schema : option znode).
                            (* the _def object of an Effects node *)

(** Descriptors are JavaScript objects: finite maps from property names to
    values. A property set to [undefined] is present and holds [VUndefined]. *)
Inductive value :=
| VUndefined
| VBool (b : bool)
| VNum (n : Z)
| VString (s : string)
| VStrings (l : list string)
| VType (t : mtype)
| VDefault (d : mDefault)
| VValidate (v : EffectValidator)
| VList (l : list value)
| VObject (o : gmap string value).

Abbreviation mField := (gmap string value).

Definition of_default (def : option mDefault) : value :=
  from_option VDefault VUndefined def.

Definition of_num (n : option Z) : value :=
  from_option VNum VUndefined n.

(** The value a default provider yields when the mapping layer calls it;
    [None] when the stored value is not a provider. *)
Definition provider_yields (v : value) : option jsval :=
  match v with
  | VDefault (DefaultValue d) => Some d
  | VDefault DefaultNull => Some JNull
  | _ => None
  end.

(** ** Failures *)

Inductive error :=
| UnsupportedFieldType (ctor : string) (* Error(`Unsupported field type: ${ctor}`) *)
| UnsupportedArrayType                 (* Error("Unsupported array type") *)
| UnsupportedMapValueType              (* Error("Unsupported map value type") *)
| RangeError.                          (* the call stack is exhausted *)

Inductive result (A : Type) :=
| Ok (a : A)
| Throw (e : error).
Arguments Ok {A} a.
Arguments Throw {A} e.

#[global] Instance result_ret : MRet result := λ A a, Ok a.

#[global] Instance result_bind : MBind result := λ A B k r,
  match r with
  | Ok a => k a
  | Throw e => Throw e
  end.

#[global] Instance result_fmap : FMap result := λ A B f r,
  match r with
  | Ok a => Ok (f a)
  | Throw e => Throw e
  end.

(** ** [extractValidationFromChecks] *)

(** The message obtained from [check.def.error], when it is a function. *)
Definition error_message (e : option error_result) : option string :=
  match e with
  | Some (ErrString s) => Some s
  | Some (ErrObject (Some s)) => Some s
  | _ => None
  end.

Fixpoint extractValidationLoop (checks : list check) : option EffectValidator :=
  match checks with
  | [] => None
  | check :: rest =>
      match check_def_of check with
      | Some d =>
          match def_zm_validation d with
          | Some v => Some v
          | None =>
              match check_zm_validation check with
              | Some v => Some v
              | None =>
                  match def_fn d with
                  | Some fn =>
                      if bool_decide (def_type d = "custom") then
                        let message := error_message (def_error d) in
                        Some {| validator := fn;
                                message := Some (if truthy message
                                                 then default "" message
                                                 else "Validation failed") |}
                      else extractValidationLoop rest
                  | None => extractValidationLoop rest
                  end
              end
          end
      | None =>
          match check_zm_validation check with
          | Some v => Some v
          | None => extractValidationLoop rest
          end
      end
  end.

Definition extractValidationFromChecks (checks : option (list check))
  : option EffectValidator :=
  match checks with
  | None | Some [] => None
  | Some checks => extractValidationLoop checks
  end.

(** ** [enhanceZodInstance] *)

Definition mark_enhanced (p : props) : props :=
  {| __zm_ref := __zm_ref p; __zm_refPath := __zm_refPath p;
     __zm_unique := __zm_unique p; __zm_sparse := __zm_sparse p;
     __zm_enhanced := true; checks := checks p; constructor := constructor p |}.

(** Marks the instance and installs the wrapped [refine] of section
    [Refine] below; an instance already marked is returned as it is. *)
Definition enhanceZodInstance (instance : znode) : znode :=
  if __zm_enhanced (node_props instance) then instance
  else ZNode (mark_enhanced (node_props instance)) (node_kind instance).

(** ** The leaf translators *)

Definition set_validate (validate : option EffectValidator) (output : mField) : mField :=
  match validate with
  | Some v => <["validate" := VValidate v]> output
  | None => output
  end.

Definition set_ref (key : string) (ref : option string) (output : mField) : mField :=
  if truthy ref then <[key := VString (default "" ref)]> output else output.

Definition parseNumber (minValue maxValue : option Z) (required : bool)
    (def : option mDefault) (unique : bool)
    (validate : option EffectValidator) (sparse : bool) : mField :=
  let output : mField :=
    {[ "type" := VType TNumber; "default" := of_default def;
       "min" := of_num minValue; "max" := of_num maxValue;
       "required" := VBool required; "unique" := VBool unique;
       "sparse" := VBool sparse ]} in
  set_validate validate output.

Definition parseString (minLength maxLength : option Z) (required : bool)
    (def : option mDefault) (unique : bool)
    (validate : option EffectValidator) (sparse : bool) : mField :=
  let output : mField :=
    {[ "type" := VType TString; "default" := of_default def;
       "required" := VBool required;
       "minLength" := of_num minLength; "maxLength" := of_num maxLength;
       "unique" := VBool unique; "sparse" := VBool sparse ]} in
  set_validate validate output.

Definition parseEnum (values : list string) (required : bool)
    (def : option mDefault) : mField :=
  {[ "type" := VType TString; "unique" := VBool false; "sparse" := VBool false;
     "default" := of_default def; "enum" := VStrings values;
     "required" := VBool required ]}.

Definition parseBoolean (required : bool) (def : option mDefault) : mField :=
  {[ "type" := VType TBoolean; "default" := of_default def;
     "required" := VBool required ]}.

Definition parseDate (required : bool) (def : option mDefault)
    (validate : option EffectValidator) (unique sparse : bool) : mField :=
  let output : mField :=
    {[ "type" := VType TDate; "default" := of_default def;
       "required" := VBool required; "unique" := VBool unique;
       "sparse" := VBool sparse ]} in
  set_validate validate output.

(** [unique] and [sparse] arrive as the raw attributes; the parameter
    defaults [unique = false] and [sparse = false] replace [undefined]. *)
Definition parseObjectId (required : bool) (ref : option string)
    (unique : option bool) (refPath : option string) (sparse : option bool) : mField :=
  let output : mField :=
    {[ "type" := VType TObjectId; "required" := VBool required;
       "unique" := VBool (default false unique);
       "sparse" := VBool (default false sparse) ]} in
  set_ref "refPath" refPath (set_ref "ref" ref output).

Definition parseUUID (required : bool) (ref : option string)
    (unique : option bool) (refPath : option string) (sparse : option bool) : mField :=
  let output : mField :=
    {[ "type" := VType TUUID; "required" := VBool required;
       "unique" := VBool (default false unique);
       "sparse" := VBool (default false sparse) ]} in
  set_ref "refPath" refPath (set_ref "ref" ref output).

Definition parseMixed (required : bool) (def : option mDefault) : mField :=
  {[ "type" := VType TMixed; "default" := of_default def;
     "required" := VBool required ]}.

(** ** The recursive translator *)

(** [required = true], [def = undefined] and [refinement = undefined] are
    the parameter defaults of [parseField]; a call that omits them is
    written [parseField f true None None]. The translation reads the
    attributes of the enhanced instance; the marker that enhancement leaves
    on the nodes it visits is read by nothing but [enhanceZodInstance] and
    [refine], so the translator returns the descriptor alone. *)

(** The composite translators call back into [parseField]; they are written
    over the callback, and [parseField] ties the knot below. *)
Section Composite.

Variable parseField :
  znode → bool → option mDefault → option EffectValidator → result (option mField).

(** The loop of [parseObject] over [Object.entries(obj.shape)], with the
    output object built so far. [parseObject(enhancedField)] is reached
    through the callback, whose object branch is [parseObject] and never
    yields [null]. The callback receives [field]: enhancing a node twice is
    enhancing it once (lemma [parseField_enhanced] below). *)
Fixpoint parseEntries (entries : list (string * znode)) (object : mField)
  : result mField :=
  match entries with
  | [] => Ok object
  | (key, field) :: rest =>
      let enhancedField := enhanceZodInstance field in
      if zmAssert.object enhancedField then
        o ← parseField field true None None;
        parseEntries rest (<[key := VObject (default ∅ o)]> object)
      else
        f ← parseField field true None None;
        match f with
        | None =>
            Throw (UnsupportedFieldType (constructor (node_props enhancedField)))
        | Some f => parseEntries rest (<[key := VObject f]> object)
        end
  end.

Definition parseArray (required : bool) (element : znode)
    (def : option mDefault) (elementValidation : option EffectValidator)
  : result mField :=
  innerType ← parseField element true None elementValidation;
  match innerType with
  | None => Throw UnsupportedArrayType
  | Some innerType =>
      Ok {[ "type" := VList [VObject innerType]; "default" := of_default def;
            "required" := VBool required ]}
  end.

Definition parseMap (required : bool) (valueType : znode)
    (def : option mDefault) : result mField :=
  pointer ← parseField valueType true None None;
  match pointer with
  | None => Throw UnsupportedMapValueType
  | Some pointer =>
      Ok {[ "type" := VType TMap; "of" := VObject pointer;
            "default" := of_default def; "required" := VBool required ]}
  end.

End Composite.

(** [originalField && originalField.__zm_unique || false] and its sibling. *)
Definition original_flag (attr : props → option bool)
    (originalField : option znode) : bool :=
  match originalField with
  | Some o => default false (attr (node_props o))
  | None => false
  end.

(** The tail of both arms of the effect branch: a result that is an object
    with a [type] property gets [unique] and [sparse] overwritten. *)
Definition patch_flags (unique sparse : bool) (parsed : option mField)
  : option mField :=
  match parsed with
  | Some o =>
      if bool_decide (is_Some (o !! "type"))
      then Some (<["sparse" := VBool sparse]> (<["unique" := VBool unique]> o))
      else Some o
  | None => None
  end.

Definition refined_primitive (type : string) : bool :=
  bool_decide (type = "string") || bool_decide (type = "number")
  || bool_decide (type = "date").

Definition transformation (type : string) : bool :=
  bool_decide (type = "pipe") || bool_decide (type = "transform").

Fixpoint parseField (field : znode) (required : bool) (def : option mDefault)
    (refinement : option EffectValidator) {struct field}
  : result (option mField) :=
  match field with
  | ZNode _ kind =>
    let own := node_props (enhanceZodInstance field) in
    match kind with
    | KObjectId =>
        let ref := __zm_ref own in
        let refPath := __zm_refPath own in
        let unique := __zm_unique own in
        let sparse := __zm_sparse own in
        Ok (Some (parseObjectId required ref unique refPath sparse))
    | KUUID =>
        let ref := __zm_ref own in
        let refPath := __zm_refPath own in
        let unique := __zm_unique own in
        let sparse := __zm_unique own in
        Ok (Some (parseUUID required ref unique refPath sparse))
    | KObject shape =>
        Some <$> parseEntries parseField shape ∅
    | KNumber minValue maxValue =>
        let isUnique := default false (__zm_unique own) in
        let isSparse := default false (__zm_sparse own) in
        let validation := extractValidationFromChecks (checks own) in
        Ok (Some (parseNumber minValue maxValue required def isUnique
                    (js_or validation refinement) isSparse))
    | KString minLength maxLength =>
        let isUnique := default false (__zm_unique own) in
        let isSparse := default false (__zm_sparse own) in
        let validation := extractValidationFromChecks (checks own) in
        Ok (Some (parseString minLength maxLength required def isUnique
                    (js_or validation refinement) isSparse))
    | KEnum options =>
        Ok (Some (parseEnum options required def))
    | KBoolean =>
        Ok (Some (parseBoolean required def))
    | KDate =>
        let isUnique := default false (__zm_unique own) in
        let isSparse := default false (__zm_sparse own) in
        let validation := extractValidationFromChecks (checks own) in
        Ok (Some (parseDate required def (js_or validation refinement)
                    isUnique isSparse))
    | KArray element =>
        let elementValidation :=
          extractValidationFromChecks (checks (node_props element)) in
        Some <$> parseArray parseField required element def elementValidation
    | KDefault innerType defaultValue =>
        parseField innerType required (Some (DefaultValue defaultValue)) None
    | KOptional innerType =>
        parseField innerType false None None
    | KNullable innerType =>
        parseField innerType false (Some (default DefaultNull def)) None
    | KUnion options =>
        match options with
        | first :: _ => parseField first true None None
        | [] => Ok None (* parseField(undefined): no assertion holds *)
        end
    | KAny =>
        Ok (Some (parseMixed required def))
    | KMap valueType | KRecord valueType =>
        Some <$> parseMap parseField required valueType def
    | KPipe inputType outputType =>
        let isPreprocess :=
          bool_decide (node_type inputType = "transform")
          && negb (bool_decide (node_type outputType = "transform")) in
        if isPreprocess
        then parseField outputType required def refinement
        else parseField inputType required def refinement
    | KEffects type in_ schema =>
        (* [const def = field._def] shadows the parameter [def] *)
        let def := Some (DefaultDef type in_ schema) in
        let originalField := js_or in_ schema in
        let unique := original_flag __zm_unique originalField in
        let sparse := original_flag __zm_sparse originalField in
        if refined_primitive type then
          let validation := refinement in
          match in_, schema with
          | Some o, _ | None, Some o =>
              patch_flags unique sparse <$> parseField o required def validation
          | None, None =>
              (* [originalField || field] is [field]: the call re-enters this
                 arm with the same arguments until the stack is exhausted *)
              Throw RangeError
          end
        else if transformation type then
          match in_, schema with
          | Some o, _ | None, Some o =>
              patch_flags unique sparse <$> parseField o required def refinement
          | None, None => Ok None (* parseField(undefined) *)
          end
        else Ok None
    | KUnknown _ => Ok None
    end
  end.

(** [parseObject(obj)] and the raw entry point; [obj] is a [ZodObject] and
    is given by its [shape]. The object branch of [parseField] is the same
    loop (lemma [parseField_object] below). *)
Definition parseObject (shape : list (string * znode)) : result mField :=
  parseEntries parseField shape ∅.

(** [zodSchema] passes the same definition on to the [Schema] constructor
    of the mapping library. *)
Definition zodSchemaRaw (shape : list (string * znode)) : result mField :=
  parseObject shape.

(** ** The extension: [extendZod], [enhanceZodInstance]'s [refine], [zId], [zUUID] *)

Definition set_ref_attr (v : option string) (p : props) : props :=
  {| __zm_ref := v; __zm_refPath := __zm_refPath p;
     __zm_unique := __zm_unique p; __zm_sparse := __zm_sparse p;
     __zm_enhanced := __zm_enhanced p; checks := checks p;
     constructor := constructor p |}.

Definition set_refPath_attr (v : option string) (p : props) : props :=
  {| __zm_ref := __zm_ref p; __zm_refPath := v;
     __zm_unique := __zm_unique p; __zm_sparse := __zm_sparse p;
     __zm_enhanced := __zm_enhanced p; checks := checks p;
     constructor := constructor p |}.

Definition set_unique_attr (v : option bool) (p : props) : props :=
  {| __zm_ref := __zm_ref p; __zm_refPath := __zm_refPath p;
     __zm_unique := v; __zm_sparse := __zm_sparse p;
     __zm_enhanced := __zm_enhanced p; checks := checks p;
     constructor := constructor p |}.

Definition set_sparse_attr (v : option bool) (p : props) : props :=
  {| __zm_ref := __zm_ref p; __zm_refPath := __zm_refPath p;
     __zm_unique := __zm_unique p; __zm_sparse := v;
     __zm_enhanced := __zm_enhanced p; checks := checks p;
     constructor := constructor p |}.

Definition set_checks (v : option (list check)) (p : props) : props :=
  {| __zm_ref := __zm_ref p; __zm_refPath := __zm_refPath p;
     __zm_unique := __zm_unique p; __zm_sparse := __zm_sparse p;
     __zm_enhanced := __zm_enhanced p; checks := v;
     constructor := constructor p |}.

Definition update_props (f : props → props) (node : znode) : znode :=
  ZNode (f (node_props node)) (node_kind node).

(** The [unique] and [sparse] methods that [extendZod] installs on the
    string, number and date prototypes; [arg = true] when omitted. *)
Definition unique (this : znode) (arg : option bool) : znode :=
  enhanceZodInstance (update_props (set_unique_attr (Some (default true arg))) this).

Definition sparse (this : znode) (arg : option bool) : znode :=
  enhanceZodInstance (update_props (set_sparse_attr (Some (default true arg))) this).

(** The second argument of [refine]: absent, a string, or an object whose
    [message] property may be missing. *)
Inductive refine_opts :=
| OptsUndefined
| OptsString (s : string)
| OptsObject (message : option string).

Definition opts_message (opts : refine_opts) : option string :=
  match opts with
  | OptsUndefined | OptsString "" => None
  | OptsString s => Some s
  | OptsObject message => message
  end.

Definition set_def_validation (v : EffectValidator) (c : check) : check :=
  match check_def_of c with
  | Some d =>
      if bool_decide (def_type d = "custom") then
        {| check_def_of :=
             Some {| def_zm_validation := Some v; def_type := def_type d;
                     def_fn := def_fn d; def_error := def_error d |};
           check_zm_validation := check_zm_validation c |}
      else c
  | None => c
  end.

(** [lastCheck.def.__zm_validation = ...] on [checks[checks.length - 1]]. *)
Definition attach_validation (v : EffectValidator) (checks : option (list check))
  : option (list check) :=
  match checks with
  | Some cs =>
      match cs !! (length cs - 1)%nat with
      | Some lastCheck => Some (<[(length cs - 1)%nat := set_def_validation v lastCheck]> cs)
      | None => Some cs
      end
  | None => None
  end.

Section Refine.

(** The [refine] of the validation library, which the enhancement wraps. *)
Variable originalRefine : znode → closure → refine_opts → znode.

(** The function that [enhanceZodInstance] installs as [instance.refine]. *)
Definition refine_enhanced (this : znode) (check : closure) (opts : refine_opts)
  : znode :=
  let refined := originalRefine this check opts in
  let message := opts_message opts in
  let originalUnique := __zm_unique (node_props this) in
  let originalSparse := __zm_sparse (node_props this) in
  let refined :=
    if originalUnique is Some _
    then update_props (set_unique_attr originalUnique) refined else refined in
  let refined :=
    if originalSparse is Some _
    then update_props (set_sparse_attr originalSparse) refined else refined in
  let refined :=
    update_props
      (λ p, set_checks
              (attach_validation {| validator := check; message := message |}
                 (checks p)) p)
      refined in
  enhanceZodInstance refined.

(** Calling [node.refine(check, opts)]: the wrapped method on an enhanced
    instance, the library's own otherwise. *)
Definition refine (this : znode) (check : closure) (opts : refine_opts) : znode :=
  if __zm_enhanced (node_props this)
  then refine_enhanced this check opts
  else originalRefine this check opts.

End Refine.

(** A fresh identifier node as [createId()] / [createUUID()] return it,
    before any attribute is attached. *)
Definition fresh_props : props :=
  {| __zm_ref := None; __zm_refPath := None; __zm_unique := None;
     __zm_sparse := None; __zm_enhanced := false; checks := None;
     constructor := "ZodUnion" |}.

Definition zId (ref : option string) : znode :=
  ZNode (set_ref_attr ref fresh_props) KObjectId.

Definition zUUID (ref : option string) : znode :=
  ZNode (set_ref_attr ref fresh_props) KUUID.

(** The methods [zId] and [zUUID] attach to the node they return. *)
Module Id.
Definition ref (this : znode) (ref : string) : znode :=
  update_props (set_ref_attr (Some ref)) this.
Definition refPath (this : znode) (ref : string) : znode :=
  update_props (set_refPath_attr (Some ref)) this.
Definition unique (this : znode) (val : option bool) : znode :=
  update_props (set_unique_attr (Some (default true val))) this.
Definition sparse (this : znode) (val : option bool) : znode :=
  update_props (set_sparse_attr (Some (default true val))) this.
End Id.

(** *** Registration *)

(** What a prototype property holds after registration, or held before. *)
Inductive pvalue :=
| PUniqueMethod
| PSparseMethod
| PTag (key : string)
| POther (id : nat).

(** The library object [z_0]: class name to prototype, a prototype being a
    map from property names to values. A class the library does not export
    is absent, and reading its [prototype] is a [TypeError]. *)
Abbreviation zod := (gmap string (gmap string pvalue)).

Inductive outcome := Returned | TypeError.

Definition UNIQUE_SUPPORT_LIST : list string := ["ZodString"; "ZodNumber"; "ZodDate"].

Definition TypesMap : list (string * string) :=
  [("String", "ZodString"); ("Number", "ZodNumber"); ("Object", "ZodObject");
   ("Array", "ZodArray"); ("Boolean", "ZodBoolean"); ("Enum", "ZodEnum");
   ("Date", "ZodDate"); ("Default", "ZodDefault"); ("Optional", "ZodOptional");
   ("Nullable", "ZodNullable"); ("Union", "ZodUnion"); ("Any", "ZodAny");
   ("Map", "ZodMap"); ("Record", "ZodRecord"); ("Effects", "ZodTransform");
   ("Pipe", "ZodPipe")].

(** The assignments of both loops, in program order: class, property, value. *)
Definition assignments : list (string * string * pvalue) :=
  (UNIQUE_SUPPORT_LIST ≫= λ type,
     [(type, "unique", PUniqueMethod); (type, "sparse", PSparseMethod)])
  ++ ((λ '(key, value), (value, "__zm_type", PTag key)) <$> TypesMap).

Fixpoint assign_all (l : list (string * string * pvalue)) (z : zod) : zod * outcome :=
  match l with
  | [] => (z, Returned)
  | (class, prop, v) :: rest =>
      match z !! class with
      | Some prototype => assign_all rest (<[class := <[prop := v]> prototype]> z)
      | None => (z, TypeError)
      end
  end.

(** [extendZod(z_0)] under the module variable [zod_extended]: the new
    value of the variable, the library as the call leaves it, and how the
    call ends. *)
Definition extendZod (z_0 : zod) (zod_extended : bool) : bool * zod * outcome :=
  if zod_extended then (zod_extended, z_0, Returned)
  else
    let '(z, o) := assign_all assignments z_0 in
    (true, z, o).

(** * Vocabulary of the properties *)

(** ** Reading descriptors *)

(** The property [key] of the descriptor a translation returned; [None]
    when there is no descriptor or it has no such property. *)
Definition descriptor_prop (key : string) (r : result (option mField))
  : option value :=
  match r with
  | Ok (Some o) => o !! key
  | _ => None
  end.

Definition required_of := descriptor_prop "required".
Definition default_of := descriptor_prop "default".

Definition translates (r : result (option mField)) : bool :=
  match r with
  | Ok (Some _) => true
  | _ => false
  end.

(** The kinds whose descriptor stores the inherited [required] flag and
    default provider as they arrive: the primitives, enum, boolean, any, and
    an array or map whose contained type translates. *)
Definition carries_context (X : znode) : bool :=
  match node_kind X with
  | KNumber _ _ | KString _ _ | KEnum _ | KBoolean | KDate | KAny => true
  | KArray element =>
      translates (parseField element true None
                    (extractValidationFromChecks (checks (node_props element))))
  | KMap valueType | KRecord valueType =>
      translates (parseField valueType true None None)
  | _ => false
  end.

(** The identifier kinds store [required] but take no default provider. *)
Definition carries_required (X : znode) : bool :=
  carries_context X || zmAssert.objectId X || zmAssert.uuid X.

(** Wrapper chains: the wrappers that pass a single inner node through. A
    union passes its first option; [others] are the options after it. *)
Inductive wrapper :=
| WDefault (own : props) (defaultValue : jsval)
| WOptional (own : props)
| WNullable (own : props)
| WUnion (own : props) (others : list znode).

Definition wrap1 (w : wrapper) (X : znode) : znode :=
  match w with
  | WDefault own defaultValue => ZNode own (KDefault X defaultValue)
  | WOptional own => ZNode own (KOptional X)
  | WNullable own => ZNode own (KNullable X)
  | WUnion own others => ZNode own (KUnion (X :: others))
  end.

(** [wrap ws X]: the head of [ws] is the outermost wrapper. *)
Definition wrap (ws : list wrapper) (X : znode) : znode := foldr wrap1 X ws.

Definition is_optional (w : wrapper) : bool :=
  match w with WOptional _ => true | _ => false end.

Definition is_union (w : wrapper) : bool :=
  match w with WUnion _ _ => true | _ => false end.

(** Nodes as the library builds them, used to run the translator. *)
Module Sample.
Definition plain (ctor : string) : props :=
  {| __zm_ref := None; __zm_refPath := None; __zm_unique := None;
     __zm_sparse := None; __zm_enhanced := false; checks := None;
     constructor := ctor |}.
Definition str : znode := ZNode (plain "ZodString") (KString None None).
Definition num : znode := ZNode (plain "ZodNumber") (KNumber None None).
Definition optional (X : znode) : znode := ZNode (plain "ZodOptional") (KOptional X).
Definition nullable (X : znode) : znode := ZNode (plain "ZodNullable") (KNullable X).
Definition default_ (X : znode) (d : jsval) : znode :=
  ZNode (plain "ZodDefault") (KDefault X d).
Definition union (options : list znode) : znode :=
  ZNode (plain "ZodUnion") (KUnion options).
Definition object (shape : list (string * znode)) : znode :=
  ZNode (plain "ZodObject") (KObject shape).
Definition array (element : znode) : znode :=
  ZNode (plain "ZodArray") (KArray element).
Definition map (valueType : znode) : znode :=
  ZNode (plain "ZodMap") (KMap valueType).
Definition bigint : znode := ZNode (plain "ZodBigInt") (KUnknown "bigint").
End Sample.

(** ** Validator extraction *)

(** The record a single constraint contributes, if any. *)
Definition check_match (c : check) : option EffectValidator :=
  extractValidationLoop [c].

(** The spec's reading: the matching record of the most recently added
    constraint, and the code's: that of the earliest one. *)
Definition last_match (cs : list check) : option EffectValidator :=
  last (omap check_match cs).

Definition first_match (cs : list check) : option EffectValidator :=
  head (omap check_match cs).

(** The kinds for which [parseField] extracts a validator. *)
Definition primitive_kind (kind : zkind) : bool :=
  match kind with
  | KString _ _ | KNumber _ _ | KDate => true
  | _ => false
  end.

(** A custom constraint carrying the record the enhanced [refine] attaches. *)
Definition refinement_check (fn : closure) (msg : option string) : check :=
  {| check_def_of :=
       Some {| def_zm_validation := Some {| validator := fn; message := msg |};
               def_type := "custom"; def_fn := Some fn; def_error := None |};
     check_zm_validation := None |}.

(** ** Failures *)

Definition throws {A} (r : result A) : bool :=
  match r with
  | Throw _ => true
  | Ok _ => false
  end.

(** The error a member of an object raises when its turn comes, if any. *)
Definition member_error (field : znode) : option error :=
  match parseField field true None None with
  | Ok (Some _) => None
  | Ok None => Some (UnsupportedFieldType (constructor (node_props field)))
  | Throw e => Some e
  end.

(** The error of the earliest failing member, in declaration order. *)
Definition first_error (shape : list (string * znode)) : option error :=
  head (omap (λ entry, member_error entry.2) shape).

(** ** Refinement *)

(** What the translation relies on from the library's [refine]: the node it
    returns is of the same kind and its constraint list is the receiver's
    with one custom constraint appended. *)
Definition appends_custom_check
    (originalRefine : znode → closure → refine_opts → znode) : Prop :=
  ∀ this check opts, ∃ own c d,
    originalRefine this check opts = ZNode own (node_kind this)
    ∧ checks own = Some (default [] (checks (node_props this)) ++ [c])
    ∧ check_def_of c = Some d
    ∧ def_type d = "custom".

(** The validation library as the examples below use it. *)
Module Library.

(** The custom constraint zod builds for [refine(check, opts)]. *)
Definition custom_check (fn : closure) (opts : refine_opts) : check :=
  {| check_def_of :=
       Some {| def_zm_validation := None; def_type := "custom";
               def_fn := Some fn;
               def_error := ErrString <$> opts_message opts |};
     check_zm_validation := None |}.

(** zod's own [refine]: a clone of the receiver with the constraint
    appended; properties attached to the receiving instance are not
    cloned. *)
Definition refine (this : znode) (check : closure) (opts : refine_opts) : znode :=
  ZNode {| __zm_ref := None; __zm_refPath := None; __zm_unique := None;
           __zm_sparse := None; __zm_enhanced := false;
           checks := Some (default [] (checks (node_props this))
                           ++ [custom_check check opts]);
           constructor := constructor (node_props this) |}
        (node_kind this).

(** A library exporting every class that [extendZod] touches, with
    untouched prototypes. *)
Definition z : zod :=
  list_to_map ((λ '(_, class), (class, ∅)) <$> TypesMap).

End Library.

(** ** Registration *)

(** One more call of [extendZod] on the state the previous call left. *)
Definition again (st : bool * zod * outcome) : bool * zod * outcome :=
  extendZod st.1.2 st.1.1.

(** ** Dispatch *)

(** The assertions in the order [parseField] tries them, and the position
    of the first one that holds for a node. *)
Definition assertions : list (znode → bool) :=
  [zmAssert.objectId; zmAssert.uuid; zmAssert.object; zmAssert.number;
   zmAssert.string; zmAssert.enumerable; zmAssert.boolean; zmAssert.date;
   zmAssert.array; zmAssert.def; zmAssert.optional; zmAssert.nullable;
   zmAssert.union; zmAssert.any; zmAssert.mapOrRecord; zmAssert.pipe;
   zmAssert.effect].

Definition branch (f : znode) : option nat :=
  fst <$> list_find (λ assertion, assertion f = true) assertions.

(** ** Structure of a schema *)

(** The nodes a node holds directly. *)
Definition children (kind : zkind) : list znode :=
  match kind with
  | KObject shape => shape.*2
  | KArray element => [element]
  | KDefault innerType _ | KOptional innerType | KNullable innerType => [innerType]
  | KUnion options => options
  | KMap valueType | KRecord valueType => [valueType]
  | KPipe inputType outputType => [inputType; outputType]
  | KEffects _ in_ schema => option_list in_ ++ option_list schema
  | _ => []
  end.

(** The side of a pipe that [parseField] translates. *)
Definition stored_side (inputType outputType : znode) : znode :=
  if bool_decide (node_type inputType = "transform")
     && negb (bool_decide (node_type outputType = "transform"))
  then outputType else inputType.

(** The schemas every part of which has a translation rule: no unknown
    node, no empty union, no effect node without a handled definition type
    and an underlying field, down the path the translator follows. *)
Fixpoint supported (f : znode) : bool :=
  match f with
  | ZNode _ kind =>
      match kind with
      | KObjectId | KUUID | KNumber _ _ | KString _ _ | KEnum _ | KBoolean
      | KDate | KAny => true
      | KObject shape => forallb (λ '(_, member), supported member) shape
      | KArray element => supported element
      | KDefault innerType _ | KOptional innerType | KNullable innerType =>
          supported innerType
      | KUnion options =>
          match options with
          | first :: _ => supported first
          | [] => false
          end
      | KMap valueType | KRecord valueType => supported valueType
      | KPipe inputType outputType =>
          if bool_decide (node_type inputType = "transform")
             && negb (bool_decide (node_type outputType = "transform"))
          then supported outputType else supported inputType
      | KEffects type in_ schema =>
          (refined_primitive type || transformation type)
          && match in_, schema with
             | Some o, _ | None, Some o => supported o
             | None, None => false
             end
      | KUnknown _ => false
      end
  end.

(** The kinds translated by one of the leaf translators, and the descriptor
    properties those fill from the inherited context. *)
Definition leaf_kind (kind : zkind) : bool :=
  match kind with
  | KObjectId | KUUID | KNumber _ _ | KString _ _ | KEnum _ | KBoolean
  | KDate | KAny => true
  | _ => false
  end.

Definition context_keys : list string := ["required"; "default"; "validate"].

(** [X.transform(f1).transform(f2)...]: each call builds a pipe whose input
    is the node so far and whose output is the transform. *)
Definition transform_chain (transforms : list (props * znode)) (X : znode) : znode :=
  foldl (λ input '(own, transform), ZNode own (KPipe input transform)) X transforms.

(** ** What a registration leaves *)

(** The property [prop] of the prototype of [class], when both exist. *)
Definition prototype_prop (z : zod) (class prop : string) : option pvalue :=
  z !! class ≫= (.!! prop).

(** A library exports a class; it is complete when it exports every class
    that [extendZod] touches. *)
Definition exports (z : zod) (class : string) : bool :=
  bool_decide (is_Some (z !! class)).

Definition complete (z : zod) : bool := forallb (exports z) TypesMap.*2.

(** The value the last assignment of [l] to [class.prop] writes, if any. *)
Fixpoint assigned (l : list (string * string * pvalue)) (class prop : string)
  : option pvalue :=
  match l with
  | [] => None
  | (c, p, v) :: rest =>
      match assigned rest class prop with
      | Some v' => Some v'
      | None => if bool_decide (c = class ∧ p = prop) then Some v else None
      end
  end.

(** The properties [extendZod] writes on prototypes. *)
Definition registered_props : list string := ["unique"; "sparse"; "__zm_type"].

(** ** Chains of refinements *)

(** [this.refine(c1, o1).refine(c2, o2)...], each call through the method
    the receiver carries. *)
Definition refine_chain (originalRefine : znode → closure → refine_opts → znode)
    (this : znode) (steps : list (closure * refine_opts)) : znode :=
  foldl (λ node '(check, opts), refine originalRefine node check opts) this steps.

(** ** Identifier descriptors *)

(** The properties an identifier descriptor can hold. *)
Definition reference_keys : list string :=
  ["type"; "required"; "unique"; "sparse"; "ref"; "refPath"].

(** * Properties *)

(** Closes an equation between closed terms by evaluating both sides. *)
Ltac vm_refl :=
  lazymatch goal with
  | |- ?lhs = ?rhs => vm_cast_no_check (eq_refl rhs)
  end.

(** The branch the pattern match of [parseField] takes for a kind is the
    first assertion of the source that holds for it; no assertion holds for
    an unknown node. *)
Lemma dispatch_follows_assertions f :
  branch f
  = match node_kind f with
    | KObjectId => Some 0 | KUUID => Some 1 | KObject _ => Some 2
    | KNumber _ _ => Some 3 | KString _ _ => Some 4 | KEnum _ => Some 5
    | KBoolean => Some 6 | KDate => Some 7 | KArray _ => Some 8
    | KDefault _ _ => Some 9 | KOptional _ => Some 10 | KNullable _ => Some 11
    | KUnion _ => Some 12 | KAny => Some 13 | KMap _ | KRecord _ => Some 14
    | KPipe _ _ => Some 15 | KEffects _ _ _ => Some 16 | KUnknown _ => None
    end%nat.
Proof. destruct f as [own kind]; by destruct kind. Qed.

Lemma parseField_object own shape required def refinement :
  parseField (ZNode own (KObject shape)) required def refinement
  = Some <$> parseObject shape.
Proof. reflexivity. Qed.

Lemma set_validate_lookup_ne validate (output : mField) key :
  key ≠ "validate" → set_validate validate output !! key = output !! key.
Proof.
  intros Hne. destruct validate as [v|]; simpl; [|done].
  by rewrite lookup_insert_ne.
Qed.

Lemma set_ref_lookup_ne key ref (output : mField) key' :
  key' ≠ key → set_ref key ref output !! key' = output !! key'.
Proof.
  intros Hne. unfold set_ref. destruct (truthy ref); [|done].
  by rewrite lookup_insert_ne.
Qed.

Lemma carries_context_spec X required def refinement :
  carries_context X = true →
  ∃ o, parseField X required def refinement = Ok (Some o)
       ∧ o !! "required" = Some (VBool required)
       ∧ o !! "default" = Some (of_default def).
Proof.
  destruct X as [own kind]. unfold carries_context. simpl.
  destruct kind; try discriminate; intros H.
  - eexists; split; [reflexivity|].
    unfold parseNumber. rewrite !set_validate_lookup_ne by done. done.
  - eexists; split; [reflexivity|].
    unfold parseString. rewrite !set_validate_lookup_ne by done. done.
  - eexists; split; [reflexivity|]. done.
  - eexists; split; [reflexivity|]. done.
  - eexists; split; [reflexivity|].
    unfold parseDate. rewrite !set_validate_lookup_ne by done. done.
  - simpl. unfold parseArray.
    destruct (parseField element _ _ _) as [[inner|]|]; try discriminate.
    eexists; split; [reflexivity|]. done.
  - eexists; split; [reflexivity|]. done.
  - simpl. unfold parseMap.
    destruct (parseField valueType _ _ _) as [[inner|]|]; try discriminate.
    eexists; split; [reflexivity|]. done.
  - simpl. unfold parseMap.
    destruct (parseField valueType _ _ _) as [[inner|]|]; try discriminate.
    eexists; split; [reflexivity|]. done.
Qed.

Lemma carries_required_spec X required def refinement :
  carries_required X = true →
  ∃ o, parseField X required def refinement = Ok (Some o)
       ∧ o !! "required" = Some (VBool required).
Proof.
  unfold carries_required. intros H.
  destruct (carries_context X) eqn:Hctx.
  - destruct (carries_context_spec X required def refinement Hctx)
      as (o & Ho & Hreq & _). eauto.
  - destruct X as [own kind]; destruct kind; try discriminate H.
    + eexists; split; [reflexivity|].
      unfold parseObjectId. by rewrite !set_ref_lookup_ne.
    + eexists; split; [reflexivity|].
      unfold parseUUID. by rewrite !set_ref_lookup_ne.
Qed.

(** ** Unions *)

(** C7. A union translates to the translation of its first option alone,
    taken with the parameter defaults, whatever the options after it are. *)
Theorem union_first_option_only own O1 rest required def refinement :
  parseField (ZNode own (KUnion (O1 :: rest))) required def refinement
  = parseField O1 true None None
  ∧ ∀ rest',
      parseField (ZNode own (KUnion (O1 :: rest'))) required def refinement
      = parseField (ZNode own (KUnion (O1 :: rest))) required def refinement.
Proof. split; [reflexivity | intros rest'; reflexivity]. Qed.

(** ** Wrapper chains *)

Lemma wrap_app ws1 ws2 X : wrap (ws1 ++ ws2) X = wrap ws1 (wrap ws2 X).
Proof. apply foldr_app. Qed.

(** Whatever wraps a node, the node is translated under some context. *)
Lemma wrap_reaches ws X : ∀ required def refinement,
  ∃ required' def' refinement',
    parseField (wrap ws X) required def refinement
    = parseField X required' def' refinement'.
Proof.
  induction ws as [|w ws IH]; intros required def refinement; simpl.
  - eauto.
  - destruct w; simpl; apply IH.
Qed.

(** Below an Optional wrapper, and with no union on the way down, the node
    is translated as not required. *)
Lemma wrap_keeps_optional ws X :
  Forall (λ w, is_union w = false) ws → ∀ def refinement,
  ∃ def' refinement',
    parseField (wrap ws X) false def refinement
    = parseField X false def' refinement'.
Proof.
  induction 1 as [|w ws Hw _ IH]; intros def refinement; simpl.
  - eauto.
  - destruct w; try discriminate Hw; simpl; apply IH.
Qed.

(** C1 (as stated). An Optional wrapper around a union leaves the field
    required, and an Optional wrapper around an object yields the nested
    map, which has no [required] flag of its own. *)
Lemma optional_not_always_unrequired :
  let ws := [WOptional (Sample.plain "ZodOptional");
             WUnion (Sample.plain "ZodUnion") [Sample.num]] in
  Exists (λ w, is_optional w = true) ws
  ∧ required_of (parseField (wrap ws Sample.str) true None None)
    = Some (VBool true)
  ∧ parseField (Sample.optional (Sample.object [("a", Sample.str)])) true None None
    = Ok (Some {[ "a" := VObject (parseString None None true None false None false) ]})
  ∧ required_of
      (parseField (Sample.optional (Sample.object [("a", Sample.str)])) true None None)
    = None.
Proof.
  split; [by apply Exists_cons_hd|]. repeat split.
Qed.

(** C1 (amended). If an Optional wrapper stands anywhere in the chain, no
    union stands between it and the node, and the node is of a kind whose
    descriptor stores the [required] flag, the descriptor has
    [required = false]. *)
Theorem optional_yields_unrequired outer own inner X required def refinement :
  Forall (λ w, is_union w = false) inner →
  carries_required X = true →
  ∃ o, parseField (wrap (outer ++ WOptional own :: inner) X) required def refinement
       = Ok (Some o)
       ∧ o !! "required" = Some (VBool false).
Proof.
  intros Hinner HX. rewrite wrap_app.
  destruct (wrap_reaches outer (wrap (WOptional own :: inner) X)
              required def refinement) as (r' & d' & v' & ->).
  change (parseField (wrap (WOptional own :: inner) X) r' d' v')
    with (parseField (wrap inner X) false None None).
  destruct (wrap_keeps_optional inner X Hinner None None) as (d'' & v'' & ->).
  apply carries_required_spec, HX.
Qed.

Lemma optional_yields_unrequired_witness :
  Forall (λ w, is_union w = false) [WNullable (Sample.plain "ZodNullable")]
  ∧ carries_required Sample.str = true
  ∧ ∃ o, parseField
           (wrap ([WDefault (Sample.plain "ZodDefault") (JStr "x")]
                  ++ WOptional (Sample.plain "ZodOptional")
                     :: [WNullable (Sample.plain "ZodNullable")]) Sample.str)
           true None None = Ok (Some o)
         ∧ o !! "required" = Some (VBool false).
Proof.
  split; [repeat constructor|]. split; [reflexivity|].
  apply (optional_yields_unrequired
           [WDefault (Sample.plain "ZodDefault") (JStr "x")]
           (Sample.plain "ZodOptional")
           [WNullable (Sample.plain "ZodNullable")] Sample.str true None None).
  - repeat constructor.
  - reflexivity.
Defined.

(** ** Default wrappers *)

(** C2 (as stated). With an Optional wrapper directly inside the Default
    wrapper, the configured default is dropped and the inherited
    [required = true] is replaced by [false]. *)
Lemma default_lost_under_optional :
  let r := parseField (Sample.default_ (Sample.optional Sample.str) (JStr "x"))
             true None None in
  default_of r = Some VUndefined ∧ required_of r = Some (VBool false).
Proof. split; reflexivity. Qed.

(** C2 (amended). For a node of a kind whose descriptor stores the inherited
    context, the Default wrapper yields a provider producing exactly the
    configured value and leaves the inherited [required] flag as it is. With
    a Nullable wrapper in between the provider is kept and [required] is
    false; with an Optional wrapper in between the provider is cleared and
    [required] is false. *)
Theorem default_wrapper_context own own' X d required def refinement :
  carries_context X = true →
  (∃ o, parseField (ZNode own (KDefault X d)) required def refinement = Ok (Some o)
        ∧ o !! "default" ≫= provider_yields = Some d
        ∧ o !! "required" = Some (VBool required))
  ∧ (∃ o,
        parseField (ZNode own (KDefault (ZNode own' (KNullable X)) d))
          required def refinement = Ok (Some o)
        ∧ o !! "default" ≫= provider_yields = Some d
        ∧ o !! "required" = Some (VBool false))
  ∧ (∃ o,
        parseField (ZNode own (KDefault (ZNode own' (KOptional X)) d))
          required def refinement = Ok (Some o)
        ∧ o !! "default" = Some VUndefined
        ∧ o !! "required" = Some (VBool false)).
Proof.
  intros HX. repeat split.
  - destruct (carries_context_spec X required (Some (DefaultValue d)) None HX)
      as (o & Ho & Hreq & Hdef).
    exists o. simpl. by rewrite Ho, Hdef.
  - destruct (carries_context_spec X false (Some (DefaultValue d)) None HX)
      as (o & Ho & Hreq & Hdef).
    exists o. simpl. by rewrite Ho, Hdef.
  - destruct (carries_context_spec X false None None HX)
      as (o & Ho & Hreq & Hdef).
    exists o. simpl. by rewrite Ho, Hdef.
Qed.

Lemma default_wrapper_context_witness :
  carries_context Sample.num = true
  ∧ ∃ o, parseField (Sample.default_ Sample.num (JNum 7)) false None None
         = Ok (Some o)
         ∧ o !! "default" ≫= provider_yields = Some (JNum 7)
         ∧ o !! "required" = Some (VBool false).
Proof.
  split; [reflexivity|].
  apply (default_wrapper_context (Sample.plain "ZodDefault")
           (Sample.plain "ZodOptional") Sample.num (JNum 7) false None None).
  reflexivity.
Defined.

(** ** Nullable wrappers *)

(** C5 (as stated). With an Optional wrapper directly inside the Nullable
    wrapper the descriptor has no default provider at all: neither the null
    provider (first run) nor the provider that was active (second run). *)
Lemma nullable_default_lost_under_optional :
  default_of (parseField (Sample.nullable (Sample.optional Sample.str))
                true None None) = Some VUndefined
  ∧ default_of (parseField (Sample.nullable (Sample.optional Sample.str))
                  true (Some (DefaultValue (JStr "x"))) None) = Some VUndefined.
Proof. split; reflexivity. Qed.

(** C5 (amended). For a node of a kind whose descriptor stores the inherited
    context, the Nullable wrapper yields [required = false]; its default
    provider resolves to null when none was active, and is the active one
    otherwise. *)
Theorem nullable_wrapper_context own X required def refinement :
  carries_context X = true →
  ∃ o, parseField (ZNode own (KNullable X)) required def refinement = Ok (Some o)
       ∧ o !! "required" = Some (VBool false)
       ∧ match def with
         | None => o !! "default" ≫= provider_yields = Some JNull
         | Some p => o !! "default" = Some (VDefault p)
         end.
Proof.
  intros HX.
  destruct (carries_context_spec X false (Some (default DefaultNull def)) None HX)
    as (o & Ho & Hreq & Hdef).
  exists o. simpl. rewrite Ho, Hdef. by destruct def.
Qed.

Lemma nullable_wrapper_context_witness :
  carries_context Sample.str = true
  ∧ ∃ o, parseField (Sample.nullable Sample.str) true None None = Ok (Some o)
         ∧ o !! "required" = Some (VBool false)
         ∧ o !! "default" ≫= provider_yields = Some JNull.
Proof.
  split; [reflexivity|].
  apply (nullable_wrapper_context (Sample.plain "ZodNullable") Sample.str
           true None None).
  reflexivity.
Defined.

(** ** Validator extraction *)

Lemma extractValidationLoop_cons c rest :
  extractValidationLoop (c :: rest)
  = match check_match c with
    | Some v => Some v
    | None => extractValidationLoop rest
    end.
Proof.
  unfold check_match. simpl.
  destruct (check_def_of c) as [d|].
  - destruct (def_zm_validation d); [done|].
    destruct (check_zm_validation c); [done|].
    destruct (def_fn d); [|done].
    by destruct (bool_decide (def_type d = "custom")).
  - by destruct (check_zm_validation c).
Qed.

Lemma extractValidationLoop_first cs :
  extractValidationLoop cs = first_match cs.
Proof.
  unfold first_match. induction cs as [|c rest IH]; [done|].
  rewrite extractValidationLoop_cons. simpl.
  destruct (check_match c); [done|]. exact IH.
Qed.

(** C3 (as stated). With two attached records the extraction returns the
    one attached first, not the most recently added one. *)
Lemma extraction_returns_first_not_last :
  let v1 := {| validator := Closure 1; message := Some "first" |} in
  let v2 := {| validator := Closure 2; message := Some "second" |} in
  let cs := [refinement_check (Closure 1) (Some "first");
             refinement_check (Closure 2) (Some "second")] in
  extractValidationFromChecks (Some cs) = Some v1
  ∧ last_match cs = Some v2
  ∧ extractValidationFromChecks (Some cs) ≠ last_match cs
  ∧ descriptor_prop "validate"
      (parseField (ZNode (set_checks (Some cs) (Sample.plain "ZodString"))
                     (KString None None)) true None None)
    = Some (VValidate v1).
Proof. repeat split. discriminate. Qed.

(** C3 (amended). The extraction walks the constraints from the first one
    forward and returns the first matching record; the string, number and
    date descriptors carry that record, or the inherited validator when no
    constraint matches. *)
Theorem extraction_first_match_wins cs own kind required def refinement :
  checks own = Some cs →
  primitive_kind kind = true →
  extractValidationFromChecks (checks own) = first_match cs
  ∧ ∃ o, parseField (ZNode own kind) required def refinement = Ok (Some o)
         ∧ o !! "validate" = VValidate <$> js_or (first_match cs) refinement.
Proof.
  intros Hcs Hkind.
  assert (Hfirst : extractValidationFromChecks (Some cs) = first_match cs).
  { destruct cs as [|c rest]; [done|]. apply extractValidationLoop_first. }
  rewrite Hcs. split; [exact Hfirst|].
  assert (Hown : checks (node_props (enhanceZodInstance (ZNode own kind)))
                 = Some cs).
  { unfold enhanceZodInstance. simpl. by destruct (__zm_enhanced own). }
  destruct kind; try discriminate Hkind; simpl; rewrite Hown, Hfirst;
    (eexists; split; [reflexivity|]);
    unfold parseNumber, parseString, parseDate, set_validate;
    destruct (js_or (first_match cs) refinement); simpl;
    by rewrite ?lookup_insert_eq.
Qed.

Lemma extraction_first_match_wins_witness :
  let cs := [refinement_check (Closure 1) (Some "first");
             refinement_check (Closure 2) (Some "second")] in
  let own := set_checks (Some cs) (Sample.plain "ZodNumber") in
  extractValidationFromChecks (checks own) = first_match cs
  ∧ ∃ o, parseField (ZNode own (KNumber None None)) true None None = Ok (Some o)
         ∧ o !! "validate" = VValidate <$> js_or (first_match cs) None.
Proof.
  intros cs own.
  apply (extraction_first_match_wins cs own (KNumber None None) true None None);
    reflexivity.
Defined.

(** ** Identifier nodes *)

(** The ObjectId branch hands every attribute to its own slot. *)
Lemma objectId_attributes own required def refinement :
  ∃ o, parseField (ZNode own KObjectId) required def refinement = Ok (Some o)
       ∧ o !! "unique" = Some (VBool (default false (__zm_unique own)))
       ∧ o !! "sparse" = Some (VBool (default false (__zm_sparse own)))
       ∧ o !! "ref"
         = (if truthy (__zm_ref own) then VString <$> __zm_ref own else None)
       ∧ o !! "refPath"
         = (if truthy (__zm_refPath own) then VString <$> __zm_refPath own else None).
Proof.
  eexists; split; [reflexivity|].
  unfold enhanceZodInstance, parseObjectId, set_ref. simpl.
  destruct (__zm_enhanced own); simpl;
    destruct (__zm_ref own) as [[|a ref]|], (__zm_refPath own) as [[|b refPath]|];
    simpl; done.
Qed.

(** The UUID branch fills [sparse] from the uniqueness attribute. *)
Lemma uuid_sparse_is_unique own required def refinement :
  ∃ o, parseField (ZNode own KUUID) required def refinement = Ok (Some o)
       ∧ o !! "unique" = Some (VBool (default false (__zm_unique own)))
       ∧ o !! "sparse" = Some (VBool (default false (__zm_unique own))).
Proof.
  eexists; split; [reflexivity|].
  unfold enhanceZodInstance, parseUUID. simpl.
  destruct (__zm_enhanced own); simpl; by rewrite !set_ref_lookup_ne.
Qed.

(** C4. [zUUID().sparse()] carries [__zm_sparse = true], yet its descriptor
    says [sparse = false]; [zUUID().unique()] carries no sparseness
    attribute, yet its descriptor says [sparse = true]. The same nodes built
    with [zId] translate as the attributes say. *)
Theorem uuid_sparse_ignores_sparseness :
  let marked_sparse := Id.sparse (zUUID None) None in
  let marked_unique := Id.unique (zUUID None) None in
  __zm_sparse (node_props marked_sparse) = Some true
  ∧ descriptor_prop "sparse" (parseField marked_sparse true None None)
    = Some (VBool false)
  ∧ __zm_sparse (node_props marked_unique) = None
  ∧ descriptor_prop "sparse" (parseField marked_unique true None None)
    = Some (VBool true)
  ∧ descriptor_prop "sparse"
      (parseField (Id.sparse (zId None) None) true None None)
    = Some (VBool true).
Proof. repeat split. Qed.

(** ** Unsupported members *)

Lemma enhanceZodInstance_constructor f :
  constructor (node_props (enhanceZodInstance f)) = constructor (node_props f).
Proof. unfold enhanceZodInstance. by destruct (__zm_enhanced (node_props f)). Qed.

Lemma parseField_enhanced f required def refinement :
  parseField (enhanceZodInstance f) required def refinement
  = parseField f required def refinement.
Proof.
  destruct f as [own kind]. unfold enhanceZodInstance. simpl.
  destruct (__zm_enhanced own) eqn:Henh; [done|].
  destruct kind; simpl; unfold enhanceZodInstance; simpl; by rewrite ?Henh.
Qed.

Lemma object_never_null f required def refinement :
  zmAssert.object (enhanceZodInstance f) = true →
  parseField f required def refinement ≠ Ok None.
Proof.
  destruct f as [own kind]. unfold enhanceZodInstance. simpl.
  destruct (__zm_enhanced own); destruct kind; try discriminate; intros _;
    simpl; by destruct (parseEntries parseField shape ∅).
Qed.

Lemma parseEntries_first_error pre rest : ∀ object,
  match first_error pre with
  | Some e => parseEntries parseField (pre ++ rest) object = Throw e
  | None => ∃ object', parseEntries parseField (pre ++ rest) object
                       = parseEntries parseField rest object'
  end.
Proof.
  unfold first_error.
  induction pre as [|[key field] pre IH]; intros object; simpl.
  - eauto.
  - unfold member_error at 1.
    pose proof (object_never_null field true None None) as Hobject.
    destruct (zmAssert.object (enhanceZodInstance field));
      destruct (parseField field true None None) as [[f|]|e]; simpl;
      try apply IH; try done.
    + by destruct Hobject.
    + by rewrite enhanceZodInstance_constructor.
Qed.

(** C6 (as stated). An object with a member of unknown kind does not always
    raise the unsupported-field-type error naming that member: with an array
    of an untranslatable type declared before it, the call throws the
    array's error, which names no node; the same holds for a map. *)
Lemma unknown_member_error_masked :
  zodSchemaRaw [("tags", Sample.array Sample.bigint); ("big", Sample.bigint)]
  = Throw UnsupportedArrayType
  ∧ zodSchemaRaw [("byKey", Sample.map Sample.bigint); ("big", Sample.bigint)]
    = Throw UnsupportedMapValueType
  ∧ zodSchemaRaw [("tags", Sample.array Sample.bigint); ("big", Sample.bigint)]
    ≠ Throw (UnsupportedFieldType "ZodBigInt").
Proof. repeat split. discriminate. Qed.

(** C6 (amended). An object with a member of unknown kind produces no
    output: the call throws. The error is the one of the earliest failing
    member in declaration order; when no member before the unknown one
    fails, it is the unsupported-field-type error built from that member's
    constructor. The field translator returns null for the unknown node,
    and an array or a map whose contained type does not translate throws as
    well. *)
Theorem unknown_member_aborts pre key own type post
    own' element valueType required def refinement :
  let unknown := ZNode own (KUnknown type) in
  zodSchemaRaw (pre ++ (key, unknown) :: post)
  = Throw match first_error pre with
          | Some e => e
          | None => UnsupportedFieldType (constructor own)
          end
  ∧ parseField unknown required def refinement = Ok None
  ∧ translates (parseField element true None
                  (extractValidationFromChecks (checks (node_props element))))
    || throws (parseField (ZNode own' (KArray element)) required def refinement)
    = true
  ∧ translates (parseField valueType true None None)
    || throws (parseField (ZNode own' (KMap valueType)) required def refinement)
       && throws (parseField (ZNode own' (KRecord valueType)) required def refinement)
    = true.
Proof.
  intros unknown. repeat split.
  - unfold zodSchemaRaw, parseObject.
    pose proof (parseEntries_first_error pre ((key, unknown) :: post) ∅) as H.
    destruct (first_error pre) as [e|]; [exact H|].
    destruct H as [object' ->]. simpl.
    unfold enhanceZodInstance. simpl. by destruct (__zm_enhanced own).
  - simpl. unfold parseArray.
    by destruct (parseField element _ _ _) as [[inner|]|e].
  - simpl. unfold parseMap.
    by destruct (parseField valueType _ _ _) as [[inner|]|e].
Qed.

(** An unknown member after a translatable one, and before another unknown
    one: the error names the first unknown member. *)
Example unknown_member_errors :
  zodSchemaRaw [("name", Sample.str); ("big", Sample.bigint)]
  = Throw (UnsupportedFieldType "ZodBigInt")
  ∧ zodSchemaRaw [("big", Sample.bigint);
                  ("sym", ZNode (Sample.plain "ZodSymbol") (KUnknown "symbol"))]
    = Throw (UnsupportedFieldType "ZodBigInt").
Proof. repeat split. Qed.

(** ** The effect branch *)

(** The effect branch, for a handled definition type and an underlying
    field: the underlying field is translated under the node's definition
    object, and the inherited provider plays no part. *)
Lemma effect_branch_passes_definition
    own type in_ schema original required def refinement :
  js_or in_ schema = Some original →
  refined_primitive type || transformation type = true →
  parseField (ZNode own (KEffects type in_ schema)) required def refinement
  = patch_flags (original_flag __zm_unique (Some original))
      (original_flag __zm_sparse (Some original))
    <$> parseField original required (Some (DefaultDef type in_ schema)) refinement.
Proof.
  intros Horig Htype. simpl. rewrite Horig.
  destruct (refined_primitive type); simpl in Htype |- *.
  - destruct in_ as [o|], schema as [o'|]; simpl in Horig; by simplify_eq.
  - rewrite Htype.
    destruct in_ as [o|], schema as [o'|]; simpl in Horig; by simplify_eq.
Qed.

(** C10 (as stated). The descriptor of an Effects node does not always show
    the definition object as its default: over an Optional wrapper the
    default is cleared, over a Default wrapper it is that wrapper's value,
    and the descriptor of an identifier node has no default at all. *)
Lemma effect_default_not_always_definition :
  let effects original :=
    ZNode (Sample.plain "ZodTransform") (KEffects "transform" (Some original) None) in
  let inherited := Some (DefaultValue (JStr "outer")) in
  default_of (parseField (effects (Sample.optional Sample.str)) true inherited None)
  = Some VUndefined
  ∧ default_of (parseField (effects (Sample.default_ Sample.str (JStr "x")))
                  true inherited None)
    = Some (VDefault (DefaultValue (JStr "x")))
  ∧ default_of (parseField (effects (zId None)) true inherited None) = None.
Proof. intros effects inherited. split; [vm_refl|]. split; vm_refl. Qed.

(** C10 (amended). For an Effects node of a handled definition type whose
    underlying field is of a kind that stores the context it is given, the
    descriptor's [default] is the node's own definition object, whatever
    provider was inherited: the local binding takes the place of the
    parameter, and the result does not depend on the inherited provider. *)
Theorem effect_definition_shadows_default
    own type in_ schema original required def def' refinement :
  js_or in_ schema = Some original →
  refined_primitive type || transformation type = true →
  carries_context original = true →
  let field := ZNode own (KEffects type in_ schema) in
  default_of (parseField field required def refinement)
  = Some (VDefault (DefaultDef type in_ schema))
  ∧ parseField field required def refinement
    = parseField field required def' refinement
  ∧ parseField field required def refinement
    = patch_flags (original_flag __zm_unique (Some original))
        (original_flag __zm_sparse (Some original))
      <$> parseField original required (Some (DefaultDef type in_ schema)) refinement.
Proof.
  intros Horig Htype Hctx field.
  pose proof (effect_branch_passes_definition own type in_ schema original
                required def refinement Horig Htype) as Heq.
  split; [|split; [reflexivity|exact Heq]].
  subst field. rewrite Heq.
  destruct (carries_context_spec original required
              (Some (DefaultDef type in_ schema)) refinement Hctx)
    as (o & -> & _ & Hdef).
  simpl. destruct (bool_decide (is_Some (o !! "type"))); simpl; [|done].
  by rewrite !lookup_insert_ne.
Qed.

Lemma effect_definition_shadows_default_witness :
  let field := ZNode (Sample.plain "ZodTransform")
                 (KEffects "transform" (Some Sample.str) None) in
  carries_context Sample.str = true
  ∧ default_of (parseField field true (Some (DefaultValue (JStr "x"))) None)
    = Some (VDefault (DefaultDef "transform" (Some Sample.str) None)).
Proof.
  split; [reflexivity|].
  exact (proj1 (effect_definition_shadows_default (Sample.plain "ZodTransform")
                  "transform" (Some Sample.str) None Sample.str true
                  (Some (DefaultValue (JStr "x"))) None None
                  eq_refl eq_refl eq_refl)).
Defined.

(** ** Registration *)

(** C8. After the first call of [extendZod] the module variable is set, and
    every later call, on the same library or on another one, returns
    normally and leaves the variable and the library as they were. *)
Theorem extendZod_reentry_is_noop z_0 z' n :
  let first := extendZod z_0 false in
  first.1.1 = true
  ∧ extendZod first.1.2 first.1.1 = (first.1.1, first.1.2, Returned)
  ∧ extendZod z' first.1.1 = (first.1.1, z', Returned)
  ∧ Nat.iter (S n) again first = (first.1.1, first.1.2, Returned).
Proof.
  intros first.
  assert (Hflag : first.1.1 = true).
  { subst first. unfold extendZod. by destruct (assign_all assignments z_0). }
  assert (Hnoop : ∀ z, extendZod z first.1.1 = (first.1.1, z, Returned)).
  { intros z. by rewrite Hflag. }
  repeat split; [done|apply Hnoop..|].
  induction n as [|n IH].
  - apply Hnoop.
  - rewrite Nat.iter_succ, IH. apply Hnoop.
Qed.

(** The first call does its work: on a library exporting the classes, the
    string prototype gains both methods and its tag. *)
Example extendZod_first_call :
  (extendZod Library.z false).2 = Returned
  ∧ (extendZod Library.z false).1.2 !! "ZodString"
    = Some {[ "unique" := PUniqueMethod; "sparse" := PSparseMethod;
              "__zm_type" := PTag "String" ]}
  ∧ (extendZod Library.z false).1.2 !! "ZodTransform"
    = Some {[ "__zm_type" := PTag "Effects" ]}
  ∧ (extendZod ∅ false) = (true, ∅, TypeError).
Proof. split; [vm_refl|]. split; [vm_refl|]. split; vm_refl. Qed.
(** ** Refinement, then wrapping *)

Lemma library_refine_appends : appends_custom_check Library.refine.
Proof.
  intros this check opts. unfold Library.refine.
  eexists _, _, _. repeat split.
Qed.

Lemma extractValidationLoop_app cs rest :
  extractValidationLoop (cs ++ rest)
  = match extractValidationLoop cs with
    | Some v => Some v
    | None => extractValidationLoop rest
    end.
Proof.
  induction cs as [|c cs IH]; [done|].
  rewrite <-app_comm_cons, !extractValidationLoop_cons.
  by destruct (check_match c).
Qed.

Lemma extractValidationFromChecks_loop cs :
  extractValidationFromChecks (Some cs) = extractValidationLoop cs.
Proof. by destruct cs. Qed.

Lemma attach_validation_snoc v cs c d :
  check_def_of c = Some d → def_type d = "custom" →
  ∃ c', attach_validation v (Some (cs ++ [c])) = Some (cs ++ [c'])
        ∧ check_match c' = Some v.
Proof.
  intros Hd Htype. unfold attach_validation.
  rewrite length_app. simpl.
  replace (length cs + 1 - 1)%nat with (length cs) by lia.
  rewrite list_lookup_middle by done.
  rewrite insert_app_r_alt, Nat.sub_diag by done. simpl.
  eexists; split; [reflexivity|].
  unfold set_def_validation, check_match. rewrite Hd, Htype. done.
Qed.

Lemma enhanceZodInstance_attributes f :
  __zm_unique (node_props (enhanceZodInstance f)) = __zm_unique (node_props f)
  ∧ __zm_sparse (node_props (enhanceZodInstance f)) = __zm_sparse (node_props f)
  ∧ checks (node_props (enhanceZodInstance f)) = checks (node_props f)
  ∧ node_kind (enhanceZodInstance f) = node_kind f.
Proof. unfold enhanceZodInstance. by destruct (__zm_enhanced (node_props f)). Qed.

(** C9 (as stated). A string node built as
    [z.string().unique().sparse().refine(p1, "first")] is a string node
    marked unique and sparse. Refined with a second predicate and message
    and wrapped in Optional, it translates to a descriptor that keeps both
    flags but holds the record of the first refinement, not the predicate
    and message just given. *)
Lemma refined_twice_keeps_first_validator :
  let s := refine Library.refine (sparse (unique Sample.str None) None)
             (Closure 1) (OptsString "first") in
  let refined := refine Library.refine s (Closure 2) (OptsString "second") in
  let descriptor := parseField (Sample.optional refined) true None None in
  zmAssert.string s = true
  ∧ __zm_unique (node_props s) = Some true
  ∧ __zm_sparse (node_props s) = Some true
  ∧ descriptor_prop "unique" descriptor = Some (VBool true)
  ∧ descriptor_prop "sparse" descriptor = Some (VBool true)
  ∧ descriptor_prop "validate" descriptor
    = Some (VValidate {| validator := Closure 1; message := Some "first" |}).
Proof.
  intros s refined descriptor.
  repeat (split; [vm_refl|]). vm_refl.
Qed.

(** C9 (amended). A string node whose constraints hold no earlier validator
    record, marked unique and sparse, then refined with a predicate and a
    message, then wrapped in Optional, translates to a descriptor with
    [unique = true], [sparse = true] and the record of that predicate and
    message. *)
Theorem refined_string_keeps_metadata
    originalRefine own minLength maxLength check opts msg own_opt
    required def refinement :
  appends_custom_check originalRefine →
  extractValidationFromChecks (checks own) = None →
  opts_message opts = Some msg →
  let s := ZNode own (KString minLength maxLength) in
  let refined := refine originalRefine (sparse (unique s None) None) check opts in
  ∃ o, parseField (ZNode own_opt (KOptional refined)) required def refinement
       = Ok (Some o)
       ∧ o !! "unique" = Some (VBool true)
       ∧ o !! "sparse" = Some (VBool true)
       ∧ o !! "validate"
         = Some (VValidate {| validator := check; message := Some msg |}).
Proof.
  intros Hlib Hnone Hmsg s refined. subst refined.
  set (s2 := sparse (unique s None) None).
  assert (Hs2 : __zm_enhanced (node_props s2) = true
                ∧ __zm_unique (node_props s2) = Some true
                ∧ __zm_sparse (node_props s2) = Some true
                ∧ checks (node_props s2) = checks own
                ∧ node_kind s2 = KString minLength maxLength).
  { subst s2 s. unfold sparse, unique, enhanceZodInstance. simpl.
    destruct (__zm_enhanced own) eqn:Henh; simpl; rewrite ?Henh; done. }
  destruct Hs2 as (Henh & Huniq & Hsparse & Hchecks & Hkind).
  destruct (Hlib s2 check opts) as (own' & c & d & Hrefined & Hcs & Hd & Htype).
  rewrite Hchecks, Hkind in *.
  destruct (attach_validation_snoc {| validator := check; message := Some msg |}
              (default [] (checks own)) c d Hd Htype) as (c' & Hattach & Hmatch).
  unfold refine. rewrite Henh.
  unfold refine_enhanced. rewrite Hrefined, Huniq, Hsparse, Hmsg.
  assert (Hloop : extractValidationFromChecks
                    (Some (default [] (checks own) ++ [c']))
                  = Some {| validator := check; message := Some msg |}).
  { rewrite extractValidationFromChecks_loop, extractValidationLoop_app.
    replace (extractValidationLoop (default [] (checks own))) with
      (@None EffectValidator); [exact Hmatch|].
    destruct (checks own) as [cs|]; [|done].
    by rewrite <-Hnone, extractValidationFromChecks_loop. }
  set (final := update_props _ _).
  destruct (enhanceZodInstance_attributes final) as (Hu & Hs & Hc & Hk).
  destruct (enhanceZodInstance final) as [own_f kind_f] eqn:Hfinal.
  simpl in Hu, Hs, Hc, Hk. subst kind_f.
  rewrite Hcs, Hattach in Hc.
  destruct (enhanceZodInstance_attributes
              (ZNode own_f (KString minLength maxLength)))
    as (Hu' & Hs' & Hc' & _).
  simpl in Hu', Hs', Hc'.
  cbn -[extractValidationFromChecks enhanceZodInstance].
  rewrite Hu', Hs', Hc', Hu, Hs, Hc, Hloop.
  eexists; split; [reflexivity|].
  repeat split.
Qed.

Lemma refined_string_keeps_metadata_witness :
  let refined := refine Library.refine (sparse (unique Sample.str None) None)
                   (Closure 2) (OptsObject (Some "too short")) in
  extractValidationFromChecks (checks (Sample.plain "ZodString")) = None
  ∧ ∃ o, parseField (Sample.optional refined) true None None = Ok (Some o)
         ∧ o !! "unique" = Some (VBool true)
         ∧ o !! "sparse" = Some (VBool true)
         ∧ o !! "validate"
           = Some (VValidate {| validator := Closure 2;
                                message := Some "too short" |}).
Proof.
  split; [reflexivity|].
  apply (refined_string_keeps_metadata Library.refine (Sample.plain "ZodString")
           None None (Closure 2) (OptsObject (Some "too short")) "too short"
           (Sample.plain "ZodOptional") true None None).
  - exact library_refine_appends.
  - reflexivity.
  - reflexivity.
Defined.

(** * Further properties of the translator and the extension *)

(** ** Which schemas translate *)

(** Induction on a schema through the nodes it holds. *)
Lemma znode_children_ind (P : znode → Prop) :
  (∀ own kind, Forall P (children kind) → P (ZNode own kind)) →
  ∀ f, P f.
Proof.
  intros step. fix IH 1. intros [own kind]. apply step.
  destruct kind; simpl; repeat constructor; try apply IH.
  - induction shape as [|[key member] shape IHshape]; constructor;
      [apply IH | exact IHshape].
  - induction options as [|option options IHoptions]; constructor;
      [apply IH | exact IHoptions].
  - destruct in_ as [o|], schema as [o'|]; simpl; repeat constructor; apply IH.
Qed.

Lemma translates_fmap_patch unique sparse (r : result (option mField)) :
  translates (patch_flags unique sparse <$> r) = translates r.
Proof.
  destruct r as [[o|]|e]; simpl; [|done..].
  by destruct (bool_decide (is_Some (o !! "type"))).
Qed.

Lemma parseEntries_translates shape :
  Forall (λ member, ∀ required def refinement,
            translates (parseField member required def refinement)
            = supported member) shape.*2 →
  ∀ object,
    translates (Some <$> parseEntries parseField shape object)
    = forallb (λ '(_, member), supported member) shape.
Proof.
  induction shape as [|[key field] shape IH]; intros Hall object; [done|].
  apply Forall_cons in Hall as [Hfield Hall]. simpl in Hfield |- *.
  rewrite <-(Hfield true None None).
  pose proof (object_never_null field true None None) as Hobject.
  destruct (zmAssert.object (enhanceZodInstance field));
    destruct (parseField field true None None) as [[f|]|e]; simpl;
    try apply IH; try done.
  by destruct Hobject.
Qed.

(** X1. A schema translates, under any inherited context, exactly when
    every node on the path the translator follows has a translation rule;
    otherwise the call yields [null] or throws. *)
Theorem translates_iff_supported f required def refinement :
  translates (parseField f required def refinement) = supported f.
Proof.
  revert required def refinement.
  induction f as [own kind IH] using znode_children_ind.
  intros required def refinement.
  destruct kind; simpl in IH |- *; try done.
  - by apply parseEntries_translates.
  - apply Forall_cons in IH as [IH _]. unfold parseArray.
    rewrite <-(IH true None
                 (extractValidationFromChecks (checks (node_props element)))).
    by destruct (parseField element _ _ _) as [[o|]|e].
  - apply Forall_cons in IH as [IH _]. apply IH.
  - apply Forall_cons in IH as [IH _]. apply IH.
  - apply Forall_cons in IH as [IH _]. apply IH.
  - destruct options as [|first options]; [done|].
    apply Forall_cons in IH as [IH _]. apply IH.
  - apply Forall_cons in IH as [IH _]. unfold parseMap.
    rewrite <-(IH true None None).
    by destruct (parseField valueType _ _ _) as [[o|]|e].
  - apply Forall_cons in IH as [IH _]. unfold parseMap.
    rewrite <-(IH true None None).
    by destruct (parseField valueType _ _ _) as [[o|]|e].
  - apply Forall_cons in IH as [IHin IH]. apply Forall_cons in IH as [IHout _].
    destruct (bool_decide (node_type in_ = "transform")
              && negb (bool_decide (node_type out = "transform")));
      [apply IHout | apply IHin].
  - destruct (refined_primitive type); simpl;
      [|destruct (transformation type); simpl; [|done]];
      destruct in_ as [o|], schema as [o'|]; simpl in IH |- *; try done;
      rewrite translates_fmap_patch;
      apply Forall_cons in IH as [IH _]; apply IH.
Qed.

(** ** Objects *)

Lemma parseEntries_members shape : ∀ object o,
  parseEntries parseField shape object = Ok o →
  NoDup shape.*1 →
  dom o = dom object ∪ list_to_set shape.*1
  ∧ (∀ key, key ∉ shape.*1 → o !! key = object !! key)
  ∧ (∀ key field, (key, field) ∈ shape →
       ∃ f, parseField field true None None = Ok (Some f)
            ∧ o !! key = Some (VObject f)).
Proof.
  induction shape as [|[key field] shape IH]; intros object o Ho Hkeys.
  - simpl in Ho. injection Ho as <-. split; [set_solver|].
    split; [done|]. intros key field Hin. by apply elem_of_nil in Hin.
  - apply NoDup_cons in Hkeys as [Hfresh Hkeys]. simpl in Ho.
    pose proof (object_never_null field true None None) as Hobject.
    assert (∃ f, parseField field true None None = Ok (Some f)
                 ∧ parseEntries parseField shape (<[key := VObject f]> object)
                   = Ok o) as (f & Hf & Hrest).
    { destruct (zmAssert.object (enhanceZodInstance field));
        destruct (parseField field true None None) as [[f|]|e];
        simpl in Ho; try done; eauto.
      by destruct Hobject. }
    destruct (IH _ _ Hrest Hkeys) as (Hdom & Hother & Hmember).
    split; [rewrite Hdom, dom_insert_L; set_solver|].
    split.
    + intros key' Hnotin. apply not_elem_of_cons in Hnotin as [Hne Hnotin].
      rewrite (Hother key' Hnotin). by rewrite lookup_insert_ne.
    + intros key' field' Hin. apply elem_of_cons in Hin as [Heq|Hin].
      * injection Heq as -> ->. exists f. split; [done|].
        rewrite (Hother key Hfresh). by rewrite lookup_insert_eq.
      * by apply Hmember.
Qed.

(** X2. When every member of an object translates, the entry point returns
    a map with exactly the keys of the shape, and under each key the
    translation of that member taken with the parameter defaults: a member
    inherits nothing from the object or from its siblings. *)
Theorem object_members_translated shape :
  NoDup shape.*1 →
  first_error shape = None →
  ∃ o, zodSchemaRaw shape = Ok o
       ∧ dom o = list_to_set shape.*1
       ∧ ∀ key field, (key, field) ∈ shape →
           ∃ f, parseField field true None None = Ok (Some f)
                ∧ o !! key = Some (VObject f).
Proof.
  intros Hkeys Hnone.
  pose proof (parseEntries_first_error shape [] ∅) as H.
  rewrite Hnone, app_nil_r in H. destruct H as [o Ho]. simpl in Ho.
  exists o. unfold zodSchemaRaw, parseObject. split; [done|].
  destruct (parseEntries_members shape ∅ o Ho Hkeys) as (Hdom & _ & Hmember).
  split; [rewrite Hdom; set_solver | exact Hmember].
Qed.

Lemma object_members_translated_witness :
  let shape := [("name", Sample.str);
                ("age", Sample.optional Sample.num);
                ("address", Sample.object [("city", Sample.str)])] in
  NoDup shape.*1
  ∧ ∃ o, zodSchemaRaw shape = Ok o
         ∧ dom o = list_to_set shape.*1
         ∧ ∀ key field, (key, field) ∈ shape →
             ∃ f, parseField field true None None = Ok (Some f)
                  ∧ o !! key = Some (VObject f).
Proof.
  intros shape.
  assert (Hkeys : NoDup shape.*1) by compute_done.
  split; [exact Hkeys|].
  apply (object_members_translated shape Hkeys). reflexivity.
Defined.

(** X3. The entry point throws exactly when some member fails, and the
    error is the one of the earliest failing member in declaration order;
    members after it are not translated. *)
Theorem object_fails_at_first_error shape rest :
  match first_error shape with
  | Some e => zodSchemaRaw shape = Throw e
              ∧ zodSchemaRaw (shape ++ rest) = Throw e
  | None => ∃ o, zodSchemaRaw shape = Ok o
  end.
Proof.
  unfold zodSchemaRaw, parseObject.
  pose proof (parseEntries_first_error shape rest ∅) as H1.
  pose proof (parseEntries_first_error shape [] ∅) as H2.
  rewrite app_nil_r in H2. destruct (first_error shape); [done|].
  destruct H2 as [o Ho]. by exists o.
Qed.

(** ** Wrappers *)

(** X4. Default, Optional, Nullable and Union wrappers around a nested
    object change nothing: the object translates to the same nested map,
    whose members keep their own flags. *)
Theorem wrappers_around_object_ignored ws own shape required def refinement :
  parseField (wrap ws (ZNode own (KObject shape))) required def refinement
  = Some <$> parseObject shape.
Proof.
  by destruct (wrap_reaches ws (ZNode own (KObject shape)) required def refinement)
    as (r' & d' & v' & ->).
Qed.

Lemma leaf_context_free X key required def refinement required' def' refinement' :
  leaf_kind (node_kind X) = true →
  key ∉ context_keys →
  descriptor_prop key (parseField X required def refinement)
  = descriptor_prop key (parseField X required' def' refinement').
Proof.
  intros Hleaf Hkey.
  assert (key ≠ "required" ∧ key ≠ "default" ∧ key ≠ "validate")
    as (Hreq & Hdef & Hval).
  { unfold context_keys in Hkey. set_solver. }
  destruct X as [own kind]; destruct kind; try discriminate Hleaf; simpl;
    unfold parseObjectId, parseUUID, parseNumber, parseString, parseEnum,
      parseBoolean, parseDate, parseMixed;
    rewrite ?set_validate_lookup_ne by done;
    unfold set_ref; repeat case_match;
    rewrite ?lookup_insert, ?lookup_singleton; repeat case_decide; congruence.
Qed.

(** X5. Whatever chain of Default, Optional, Nullable and Union wrappers
    surrounds a leaf node, every property of its descriptor other than
    [required], [default] and [validate] (the storage type, the length and
    range bounds, the enum values, the uniqueness and sparseness flags, the
    references) is the one the bare node translates to. *)
Theorem leaf_constraints_survive_wrapping
    ws X key required def refinement required' def' refinement' :
  leaf_kind (node_kind X) = true →
  key ∉ context_keys →
  descriptor_prop key (parseField (wrap ws X) required def refinement)
  = descriptor_prop key (parseField X required' def' refinement').
Proof.
  intros Hleaf Hkey.
  destruct (wrap_reaches ws X required def refinement) as (r & d & v & ->).
  by apply leaf_context_free.
Qed.

Lemma leaf_constraints_survive_wrapping_witness :
  let X := ZNode (Sample.plain "ZodString") (KString (Some 3%Z) (Some 255%Z)) in
  let ws := [WOptional (Sample.plain "ZodOptional");
             WDefault (Sample.plain "ZodDefault") (JStr "x")] in
  leaf_kind (node_kind X) = true
  ∧ ("maxLength" ∉ context_keys)
  ∧ descriptor_prop "maxLength" (parseField (wrap ws X) true None None)
    = descriptor_prop "maxLength" (parseField X true None None).
Proof.
  intros X ws.
  assert (Hkey : "maxLength" ∉ context_keys)
    by compute_done.
  split; [reflexivity|]. split; [exact Hkey|].
  by apply (leaf_constraints_survive_wrapping ws X "maxLength"
              true None None true None None).
Defined.

(** X6. The context-passing wrappers compose as follows. Nullable and
    Default commute. A Default wrapper outside an Optional one is lost (the
    result is that of the Optional wrapper alone), whereas inside it the
    default reaches the node. An Optional or Nullable wrapper around an
    Optional one adds nothing. *)
Theorem wrapper_composition own1 own2 X v required def refinement :
  parseField (ZNode own1 (KNullable (ZNode own2 (KDefault X v)))) required def refinement
  = parseField (ZNode own1 (KDefault (ZNode own2 (KNullable X)) v)) required def refinement
  ∧ parseField (ZNode own1 (KDefault (ZNode own2 (KOptional X)) v)) required def refinement
    = parseField (ZNode own2 (KOptional X)) required def refinement
  ∧ parseField (ZNode own1 (KOptional (ZNode own2 (KDefault X v)))) required def refinement
    = parseField X false (Some (DefaultValue v)) None
  ∧ parseField (ZNode own1 (KOptional (ZNode own2 (KOptional X)))) required def refinement
    = parseField (ZNode own2 (KOptional X)) required def refinement
  ∧ parseField (ZNode own1 (KNullable (ZNode own2 (KOptional X)))) required def refinement
    = parseField (ZNode own2 (KOptional X)) required def refinement.
Proof. repeat split. Qed.

(** ** Arrays and maps *)

(** X7. The contained type of an array or map is translated on its own
    terms: whatever the composite inherits, the element descriptor is
    required and has no default, while the composite's descriptor takes the
    inherited flag and provider and holds the element descriptor under
    [type] (as a one-element list) or [of]. *)
Theorem contained_type_context own content required def refinement :
  carries_context content = true →
  (∃ o inner,
      parseField (ZNode own (KArray content)) required def refinement = Ok (Some o)
      ∧ o !! "type" = Some (VList [VObject inner])
      ∧ o !! "required" = Some (VBool required)
      ∧ o !! "default" = Some (of_default def)
      ∧ inner !! "required" = Some (VBool true)
      ∧ inner !! "default" = Some VUndefined)
  ∧ (∃ o inner,
      parseField (ZNode own (KMap content)) required def refinement = Ok (Some o)
      ∧ parseField (ZNode own (KRecord content)) required def refinement = Ok (Some o)
      ∧ o !! "type" = Some (VType TMap)
      ∧ o !! "of" = Some (VObject inner)
      ∧ o !! "required" = Some (VBool required)
      ∧ o !! "default" = Some (of_default def)
      ∧ inner !! "required" = Some (VBool true)
      ∧ inner !! "default" = Some VUndefined).
Proof.
  intros Hcontent. split.
  - destruct (carries_context_spec content true None
                (extractValidationFromChecks (checks (node_props content)))
                Hcontent) as (inner & Hinner & Hreq & Hdef).
    eexists _, inner. simpl. unfold parseArray. rewrite Hinner. simpl.
    by repeat split.
  - destruct (carries_context_spec content true None None Hcontent)
      as (inner & Hinner & Hreq & Hdef).
    eexists _, inner. simpl. unfold parseMap. rewrite Hinner. simpl.
    by repeat split.
Qed.

Lemma contained_type_context_witness :
  carries_context Sample.str = true
  ∧ ∃ o inner,
      parseField (Sample.array Sample.str) false None None = Ok (Some o)
      ∧ o !! "type" = Some (VList [VObject inner])
      ∧ o !! "required" = Some (VBool false)
      ∧ o !! "default" = Some VUndefined
      ∧ inner !! "required" = Some (VBool true)
      ∧ inner !! "default" = Some VUndefined.
Proof.
  split; [reflexivity|].
  apply (contained_type_context (Sample.plain "ZodArray") Sample.str false None None).
  reflexivity.
Defined.

(** ** Pipes *)

Lemma transform_chain_type transforms X :
  node_type X ≠ "transform" → node_type (transform_chain transforms X) ≠ "transform".
Proof.
  intros HX. unfold transform_chain.
  induction transforms as [|[own transform] transforms IH] using rev_ind; [done|].
  rewrite foldl_app. simpl. done.
Qed.

(** X8. Transforms do not change what is stored: a node followed by any
    number of [transform] calls, and a node behind a [preprocess], translate
    exactly as the node itself, under the same inherited context. *)
Theorem pipes_translate_the_stored_node
    transforms own X T required def refinement :
  node_type X ≠ "transform" →
  node_type T = "transform" →
  parseField (transform_chain transforms X) required def refinement
  = parseField X required def refinement
  ∧ parseField (ZNode own (KPipe T X)) required def refinement
    = parseField X required def refinement.
Proof.
  intros HX HT. split.
  - unfold transform_chain.
    induction transforms as [|[own' transform] transforms IH] using rev_ind;
      [done|].
    rewrite foldl_app. simpl.
    pose proof (transform_chain_type transforms X HX) as Htype.
    unfold transform_chain in Htype.
    rewrite (bool_decide_eq_false_2 _ Htype). simpl. exact IH.
  - simpl. rewrite (bool_decide_eq_true_2 _ HT), (bool_decide_eq_false_2 _ HX).
    done.
Qed.

Lemma pipes_translate_the_stored_node_witness :
  let T := ZNode (Sample.plain "ZodTransform") (KEffects "transform" None None) in
  let chain := [(Sample.plain "ZodPipe", T); (Sample.plain "ZodPipe", T)] in
  node_type Sample.str ≠ "transform"
  ∧ node_type T = "transform"
  ∧ parseField (transform_chain chain Sample.str) false None None
    = parseField Sample.str false None None.
Proof.
  intros T chain.
  assert (HX : node_type Sample.str ≠ "transform") by discriminate.
  split; [exact HX|]. split; [reflexivity|].
  by apply (pipes_translate_the_stored_node chain (Sample.plain "ZodPipe")
              Sample.str T false None None).
Defined.

(** ** Registration on a library *)

Lemma exports_insert (z : zod) class prototype class' :
  is_Some (z !! class) →
  exports (<[class := prototype]> z) class' = exports z class'.
Proof.
  intros Hclass. unfold exports. apply bool_decide_ext.
  rewrite lookup_insert_is_Some.
  destruct (decide (class = class')) as [<-|]; naive_solver.
Qed.

Lemma forallb_exports_insert (z : zod) class prototype classes :
  is_Some (z !! class) →
  forallb (exports (<[class := prototype]> z)) classes
  = forallb (exports z) classes.
Proof.
  intros Hclass. induction classes as [|c cs IH]; [done|]. simpl.
  by rewrite IH, exports_insert.
Qed.

Lemma assign_all_outcome l : ∀ z,
  (assign_all l z).2
  = (if forallb (exports z) l.*1.*1 then Returned else TypeError)
  ∧ dom (assign_all l z).1 = dom z.
Proof.
  induction l as [|[[class prop] v] l IH]; intros z; simpl; [done|].
  unfold exports at 1.
  destruct (z !! class) as [prototype|] eqn:Hclass.
  - rewrite bool_decide_eq_true_2 by eauto. simpl.
    destruct (IH (<[class := <[prop := v]> prototype]> z)) as [-> ->].
    split.
    + by rewrite forallb_exports_insert by eauto.
    + rewrite dom_insert_L. apply elem_of_dom_2 in Hclass. set_solver.
  - rewrite bool_decide_eq_false_2 by (intros [? ?]; done). done.
Qed.

Lemma assigned_elem l class prop v :
  assigned l class prop = Some v → (class, prop, v) ∈ l.
Proof.
  induction l as [|[[c p] v'] l IH]; simpl; [done|].
  destruct (assigned l class prop) as [w|].
  - intros [= ->]. right. by apply IH.
  - case_bool_decide as Heq; [|done]. intros [= ->].
    destruct Heq as [-> ->]. left.
Qed.

Lemma assign_all_props l : ∀ z z',
  assign_all l z = (z', Returned) →
  ∀ class prop,
    prototype_prop z' class prop
    = match assigned l class prop with
      | Some v => Some v
      | None => prototype_prop z class prop
      end.
Proof.
  induction l as [|[[c p] v] l IH]; intros z z' Hrun class prop; simpl in *.
  - by injection Hrun as <-.
  - destruct (z !! c) as [prototype|] eqn:Hc; [|done].
    rewrite (IH _ _ Hrun class prop).
    destruct (assigned l class prop) as [w|]; [done|].
    unfold prototype_prop.
    destruct (decide (c = class)) as [->|Hne].
    + rewrite lookup_insert_eq, Hc. simpl.
      destruct (decide (p = prop)) as [->|Hne].
      * rewrite lookup_insert_eq. by rewrite bool_decide_eq_true_2.
      * rewrite lookup_insert_ne by done.
        by rewrite bool_decide_eq_false_2 by naive_solver.
    + rewrite lookup_insert_ne by done.
      by rewrite bool_decide_eq_false_2 by naive_solver.
Qed.

Lemma assign_all_untouched l : ∀ z class prop,
  (∀ v, (class, prop, v) ∉ l) →
  prototype_prop (assign_all l z).1 class prop = prototype_prop z class prop.
Proof.
  induction l as [|[[c p] v] l IH]; intros z class prop Hnot; simpl; [done|].
  destruct (z !! c) as [prototype|] eqn:Hc; [|done].
  rewrite IH by (intros w Hin; apply (Hnot w); by right).
  unfold prototype_prop.
  destruct (decide (c = class)) as [->|Hne].
  - rewrite lookup_insert_eq, Hc. simpl.
    rewrite lookup_insert_ne; [done|].
    intros ->. apply (Hnot v). left.
  - by rewrite lookup_insert_ne.
Qed.

Lemma assign_all_other_class l : ∀ z class,
  class ∉ l.*1.*1 → (assign_all l z).1 !! class = z !! class.
Proof.
  induction l as [|[[c p] v] l IH]; intros z class Hnot; simpl in *; [done|].
  apply not_elem_of_cons in Hnot as [Hne Hnot].
  destruct (z !! c) as [prototype|] eqn:Hc; [|done].
  rewrite IH by done. by rewrite lookup_insert_ne.
Qed.

Lemma assignments_classes (z : zod) :
  forallb (exports z) assignments.*1.*1 = complete z.
Proof.
  unfold complete. simpl.
  repeat (match goal with
          | |- context [exports z ?class] => destruct (exports z class)
          end; simpl; try reflexivity).
Qed.

Lemma assignments_elem class prop v :
  (class, prop, v) ∈ assignments →
  class ∈ TypesMap.*2 ∧ prop ∈ registered_props.
Proof.
  unfold assignments, registered_props. simpl.
  rewrite !elem_of_cons, elem_of_nil.
  intros H. destruct_or!; try done; simplify_eq; split; set_solver.
Qed.

(** X9. On a library that exports every class of [TypesMap], the first call
    of [extendZod] ends normally with the module variable set, adds and
    removes no class, tags the prototype of every listed class with its
    key, and gives [unique] and [sparse] methods to the string, number and
    date prototypes and to no other. *)
Theorem extendZod_registers z_0 key class :
  complete z_0 = true →
  (key, class) ∈ TypesMap →
  let z := (extendZod z_0 false).1.2 in
  extendZod z_0 false = (true, z, Returned)
  ∧ dom z = dom z_0
  ∧ prototype_prop z class "__zm_type" = Some (PTag key)
  ∧ prototype_prop z class "unique"
    = (if bool_decide (class ∈ UNIQUE_SUPPORT_LIST) then Some PUniqueMethod
       else prototype_prop z_0 class "unique")
  ∧ prototype_prop z class "sparse"
    = (if bool_decide (class ∈ UNIQUE_SUPPORT_LIST) then Some PSparseMethod
       else prototype_prop z_0 class "sparse").
Proof.
  intros Hcomplete Hin z.
  destruct (assign_all_outcome assignments z_0) as [Hout Hdom].
  rewrite assignments_classes, Hcomplete in Hout.
  assert (Hrun : assign_all assignments z_0 = (z, Returned)).
  { subst z. unfold extendZod.
    destruct (assign_all assignments z_0) as [z' o]. simpl in *. by subst. }
  assert (Hz : extendZod z_0 false = (true, z, Returned)).
  { unfold extendZod. by rewrite Hrun. }
  split; [exact Hz|]. split; [by rewrite Hrun in Hdom|].
  pose proof (assign_all_props _ _ _ Hrun class) as Hprops.
  rewrite !Hprops. clear Hprops Hrun Hz Hout Hdom Hcomplete. clearbody z.
  unfold TypesMap in Hin. rewrite !elem_of_cons, elem_of_nil in Hin.
  destruct_or!; try done; simplify_eq; repeat split; vm_compute; reflexivity.
Qed.

Lemma extendZod_registers_witness :
  complete Library.z = true
  ∧ (("Date", "ZodDate") ∈ TypesMap)
  ∧ prototype_prop (extendZod Library.z false).1.2 "ZodDate" "__zm_type"
    = Some (PTag "Date").
Proof.
  assert (Hin : ("Date", "ZodDate") ∈ TypesMap) by compute_done.
  assert (Hcomplete : complete Library.z = true) by (vm_compute; reflexivity).
  split; [exact Hcomplete|]. split; [exact Hin|].
  exact (proj1 (proj2 (proj2 (extendZod_registers Library.z "Date" "ZodDate"
                                 Hcomplete Hin)))).
Defined.

(** X10. Whether it ends normally or fails halfway, and whatever the module
    variable holds, a call of [extendZod] adds and removes no class, and
    leaves as it was every property of a class outside [TypesMap] and, on
    every prototype, every property other than [unique], [sparse] and
    [__zm_type]. *)
Theorem extendZod_frame z_0 zod_extended class prop :
  class ∉ TypesMap.*2 ∨ prop ∉ registered_props →
  let z := (extendZod z_0 zod_extended).1.2 in
  dom z = dom z_0
  ∧ prototype_prop z class prop = prototype_prop z_0 class prop.
Proof.
  intros Hout z. subst z. unfold extendZod.
  destruct zod_extended; [done|].
  destruct (assign_all_outcome assignments z_0) as [_ Hdom].
  pose proof (assign_all_untouched assignments z_0 class prop) as Hprop.
  destruct (assign_all assignments z_0) as [z o]. simpl in *.
  split; [exact Hdom|]. apply Hprop.
  intros v Hin. apply assignments_elem in Hin as [Hclass Hprop'].
  by destruct Hout.
Qed.

Lemma extendZod_frame_witness :
  ("refine" ∉ registered_props)
  ∧ prototype_prop
      (extendZod (<["ZodString" := {[ "refine" := POther 0 ]}]> Library.z) false).1.2
      "ZodString" "refine"
    = Some (POther 0).
Proof.
  assert (Hprop : "refine" ∉ registered_props) by compute_done.
  split; [exact Hprop|].
  rewrite (proj2 (extendZod_frame
                    (<["ZodString" := {[ "refine" := POther 0 ]}]> Library.z)
                    false "ZodString" "refine" (or_intror Hprop))).
  vm_compute. reflexivity.
Defined.

(** X11. The first call of [extendZod] ends normally exactly when the
    library exports every class of [TypesMap], and with a [TypeError]
    otherwise; the module variable is set in both cases. *)
Theorem extendZod_outcome z_0 :
  (extendZod z_0 false).2 = (if complete z_0 then Returned else TypeError)
  ∧ (extendZod z_0 false).1.1 = true.
Proof.
  unfold extendZod.
  destruct (assign_all_outcome assignments z_0) as [Hout _].
  rewrite assignments_classes in Hout.
  by destruct (assign_all assignments z_0) as [z o].
Qed.

(** ** The [unique] and [sparse] methods *)

(** The descriptor of a primitive node whose attributes were updated by
    [attr] and which was enhanced afterwards, read off the descriptor of the
    node before the update. *)
Lemma marker_update (attr : props → props) own kind key required def refinement :
  primitive_kind kind = true →
  checks (attr own) = checks own →
  descriptor_prop key
    (parseField (enhanceZodInstance (ZNode (attr own) kind)) required def refinement)
  = (if bool_decide (key = "unique")
     then Some (VBool (default false (__zm_unique (attr own))))
     else if bool_decide (key = "sparse")
     then Some (VBool (default false (__zm_sparse (attr own))))
     else descriptor_prop key (parseField (ZNode own kind) required def refinement)).
Proof.
  intros Hkind Hchecks. rewrite parseField_enhanced.
  destruct (enhanceZodInstance_attributes (ZNode own kind)) as (Hu & Hs & Hc & _).
  destruct (enhanceZodInstance_attributes (ZNode (attr own) kind))
    as (Hu' & Hs' & Hc' & _).
  simpl in Hu, Hs, Hc, Hu', Hs', Hc'.
  destruct kind; try discriminate Hkind;
    cbn -[enhanceZodInstance extractValidationFromChecks];
    rewrite Hu, Hs, Hc, Hu', Hs', Hc', Hchecks;
    generalize (js_or (extractValidationFromChecks (checks own)) refinement);
    intros validate;
    unfold parseNumber, parseString, parseDate;
    destruct validate; simpl;
    rewrite ?lookup_insert, ?lookup_singleton;
    repeat case_decide; repeat case_bool_decide; congruence.
Qed.

(** X12. On a string, number or date node, [unique(arg)] sets the
    descriptor's [unique] to [arg] (true when omitted) and changes no other
    property of the descriptor; [sparse(arg)] does the same for [sparse].
    The two methods commute, and a second call of [unique] replaces the
    first. *)
Theorem markers_reach_descriptor X arg arg' key required def refinement :
  primitive_kind (node_kind X) = true →
  descriptor_prop key (parseField (unique X arg) required def refinement)
  = (if bool_decide (key = "unique") then Some (VBool (default true arg))
     else descriptor_prop key (parseField X required def refinement))
  ∧ descriptor_prop key (parseField (sparse X arg) required def refinement)
    = (if bool_decide (key = "sparse") then Some (VBool (default true arg))
       else descriptor_prop key (parseField X required def refinement))
  ∧ unique (sparse X arg) arg' = sparse (unique X arg') arg
  ∧ unique (unique X arg') arg = unique X arg.
Proof.
  intros Hkind. destruct X as [own kind]. simpl in Hkind.
  pose proof (marker_update id own kind key required def refinement
                Hkind eq_refl) as Hid.
  rewrite parseField_enhanced in Hid. cbn [id] in Hid.
  split; [|split; [|split]].
  - unfold unique, update_props. cbn [node_props node_kind].
    rewrite (marker_update (set_unique_attr (Some (default true arg))))
      by done.
    unfold set_unique_attr. cbn [__zm_unique __zm_sparse from_option id].
    rewrite Hid. repeat case_bool_decide; first [reflexivity | congruence].
  - unfold sparse, update_props. cbn [node_props node_kind].
    rewrite (marker_update (set_sparse_attr (Some (default true arg))))
      by done.
    unfold set_sparse_attr. cbn [__zm_unique __zm_sparse from_option id].
    rewrite Hid. repeat case_bool_decide; first [reflexivity | congruence].
  - unfold unique, sparse, enhanceZodInstance, update_props. simpl.
    destruct (__zm_enhanced own) eqn:Henh; simpl; by rewrite ?Henh.
  - unfold unique, enhanceZodInstance, update_props. simpl.
    destruct (__zm_enhanced own) eqn:Henh; simpl; by rewrite ?Henh.
Qed.

Lemma markers_reach_descriptor_witness :
  primitive_kind (node_kind Sample.num) = true
  ∧ descriptor_prop "unique"
      (parseField (unique Sample.num (Some false)) true None None)
    = Some (VBool false).
Proof.
  split; [reflexivity|].
  exact (proj1 (markers_reach_descriptor Sample.num (Some false) None "unique"
                  true None None eq_refl)).
Defined.

(** ** Identifier nodes under wrappers *)

Lemma identifier_keys X required def refinement :
  zmAssert.objectId X || zmAssert.uuid X = true →
  ∃ o, parseField X required def refinement = Ok (Some o)
       ∧ dom o ⊆@{gset string} list_to_set reference_keys
       ∧ o !! "type"
         = Some (VType (if zmAssert.objectId X then TObjectId else TUUID)).
Proof.
  destruct X as [own kind]; destruct kind; try discriminate; intros _;
    (eexists; split; [reflexivity|]);
    unfold parseObjectId, parseUUID, set_ref, reference_keys;
    (split; [|by rewrite ?set_ref_lookup_ne; repeat case_match]);
    repeat case_match; rewrite ?dom_insert_L, ?dom_singleton_L; set_solver.
Qed.

(** X13. Under any chain of Default, Optional, Nullable and Union wrappers
    an identifier node (ObjectId or UUID) translates to a reference
    descriptor of its own storage type that holds nothing but [type],
    [required], [unique], [sparse], [ref] and [refPath]: a default value
    configured by a wrapper, the null default of a Nullable wrapper and an
    inherited validator never reach it. *)
Theorem identifier_descriptor ws X required def refinement :
  zmAssert.objectId X || zmAssert.uuid X = true →
  ∃ o, parseField (wrap ws X) required def refinement = Ok (Some o)
       ∧ dom o ⊆@{gset string} list_to_set reference_keys
       ∧ o !! "default" = None
       ∧ o !! "validate" = None
       ∧ o !! "type"
         = Some (VType (if zmAssert.objectId X then TObjectId else TUUID)).
Proof.
  intros HX.
  destruct (wrap_reaches ws X required def refinement) as (r & d & v & ->).
  destruct (identifier_keys X r d v HX) as (o & Ho & Hdom & Htype).
  exists o. split; [exact Ho|]. split; [exact Hdom|].
  split; [|split; [|exact Htype]];
    apply not_elem_of_dom; intros Hin; apply Hdom in Hin;
    unfold reference_keys in Hin; set_solver.
Qed.

Lemma identifier_descriptor_witness :
  let ws := [WDefault (Sample.plain "ZodDefault") (JStr "000000000000000000000000");
             WNullable (Sample.plain "ZodNullable")] in
  zmAssert.objectId (zId (Some "User")) || zmAssert.uuid (zId (Some "User")) = true
  ∧ ∃ o, parseField (wrap ws (zId (Some "User"))) true None None = Ok (Some o)
         ∧ dom o ⊆@{gset string} list_to_set reference_keys
         ∧ o !! "default" = None
         ∧ o !! "validate" = None
         ∧ o !! "type" = Some (VType TObjectId).
Proof.
  intros ws. split; [reflexivity|].
  exact (identifier_descriptor ws (zId (Some "User")) true None None eq_refl).
Defined.

(** ** Chains of refinements *)

Lemma primitive_validate own kind required def refinement :
  primitive_kind kind = true →
  descriptor_prop "validate" (parseField (ZNode own kind) required def refinement)
  = VValidate <$> js_or (extractValidationFromChecks (checks own)) refinement.
Proof.
  intros Hkind.
  destruct (enhanceZodInstance_attributes (ZNode own kind)) as (_ & _ & Hc & _).
  simpl in Hc.
  destruct kind; try discriminate Hkind;
    cbn -[enhanceZodInstance extractValidationFromChecks];
    rewrite Hc;
    generalize (js_or (extractValidationFromChecks (checks own)) refinement);
    intros validate; unfold parseNumber, parseString, parseDate;
    by destruct validate.
Qed.

(** One call of the wrapped [refine] on a node carrying both markers. *)
Lemma refine_enhanced_step originalRefine this check opts u s :
  appends_custom_check originalRefine →
  __zm_unique (node_props this) = Some u →
  __zm_sparse (node_props this) = Some s →
  let refined := refine_enhanced originalRefine this check opts in
  node_kind refined = node_kind this
  ∧ __zm_enhanced (node_props refined) = true
  ∧ __zm_unique (node_props refined) = Some u
  ∧ __zm_sparse (node_props refined) = Some s
  ∧ ∃ c', checks (node_props refined)
          = Some (default [] (checks (node_props this)) ++ [c'])
          ∧ check_match c'
            = Some {| validator := check; message := opts_message opts |}.
Proof.
  intros Hlib Hu Hs refined. subst refined.
  destruct (Hlib this check opts) as (own' & c & d & Hrefined & Hcs & Hd & Htype).
  destruct (attach_validation_snoc
              {| validator := check; message := opts_message opts |}
              (default [] (checks (node_props this))) c d Hd Htype)
    as (c' & Hattach & Hmatch).
  unfold refine_enhanced. rewrite Hrefined, Hu, Hs.
  set (final := update_props _ _).
  destruct (enhanceZodInstance_attributes final) as (Hu' & Hs' & Hc' & Hk').
  rewrite Hu', Hs', Hc', Hk'. subst final. simpl. rewrite Hcs, Hattach.
  split; [done|]. split; [|split; [done|split; [done|by exists c']]].
  unfold enhanceZodInstance, update_props. simpl.
  destruct (__zm_enhanced own') eqn:Henh; simpl; by rewrite ?Henh.
Qed.

(** Once a validator record is the first match of an enhanced, marked node,
    further refinements keep the kind, the markers and that first match. *)
Lemma refine_chain_invariant originalRefine steps : ∀ this u s v,
  appends_custom_check originalRefine →
  __zm_enhanced (node_props this) = true →
  __zm_unique (node_props this) = Some u →
  __zm_sparse (node_props this) = Some s →
  extractValidationFromChecks (checks (node_props this)) = Some v →
  let refined := refine_chain originalRefine this steps in
  node_kind refined = node_kind this
  ∧ __zm_unique (node_props refined) = Some u
  ∧ __zm_sparse (node_props refined) = Some s
  ∧ extractValidationFromChecks (checks (node_props refined)) = Some v.
Proof.
  induction steps as [|[check opts] steps IH];
    intros this u s v Hlib Henh Hu Hs Hv; simpl; [done|].
  destruct (refine_enhanced_step originalRefine this check opts u s Hlib Hu Hs)
    as (Hk' & Henh' & Hu' & Hs' & c' & Hc' & _).
  assert (Hrefine : refine originalRefine this check opts
                    = refine_enhanced originalRefine this check opts).
  { unfold refine. by rewrite Henh. }
  assert (Hv' : extractValidationFromChecks
                  (checks (node_props (refine_enhanced originalRefine this check opts)))
                = Some v).
  { rewrite Hc', extractValidationFromChecks_loop, extractValidationLoop_app.
    destruct (checks (node_props this)) as [cs|]; [|done].
    rewrite extractValidationFromChecks_loop in Hv. simpl. by rewrite Hv. }
  destruct (IH _ u s v Hlib Henh' Hu' Hs' Hv') as (Hk & Hu'' & Hs'' & Hv'').
  unfold refine_chain in *. rewrite Hrefine.
  repeat split; try done. by rewrite Hk.
Qed.

(** X14. A string, number or date node without a validator record, marked
    with [unique(arg)] and [sparse(arg')] and then refined any number of
    times (at least once), translates to a descriptor that keeps both
    markers and whose validator is the predicate and message of the first
    refinement of the chain, whatever validator is inherited. *)
Theorem refinement_chain_keeps_first
    originalRefine X arg arg' check opts steps required def refinement :
  appends_custom_check originalRefine →
  primitive_kind (node_kind X) = true →
  extractValidationFromChecks (checks (node_props X)) = None →
  let marked := sparse (unique X arg) arg' in
  let refined := refine_chain originalRefine marked ((check, opts) :: steps) in
  let descriptor := parseField refined required def refinement in
  node_kind refined = node_kind X
  ∧ descriptor_prop "validate" descriptor
    = Some (VValidate {| validator := check; message := opts_message opts |})
  ∧ descriptor_prop "unique" descriptor = Some (VBool (default true arg))
  ∧ descriptor_prop "sparse" descriptor = Some (VBool (default true arg')).
Proof.
  intros Hlib Hkind Hnone marked refined descriptor.
  assert (Hmarked : __zm_enhanced (node_props marked) = true
                    ∧ __zm_unique (node_props marked) = Some (default true arg)
                    ∧ __zm_sparse (node_props marked) = Some (default true arg')
                    ∧ checks (node_props marked) = checks (node_props X)
                    ∧ node_kind marked = node_kind X).
  { subst marked. destruct X as [own kind].
    unfold sparse, unique, enhanceZodInstance. simpl.
    destruct (__zm_enhanced own) eqn:Henh; simpl; rewrite ?Henh; done. }
  destruct Hmarked as (Henh & Hu & Hs & Hc & Hk).
  set (v := {| validator := check; message := opts_message opts |}).
  set (first := refine originalRefine marked check opts).
  destruct (refine_enhanced_step originalRefine marked check opts _ _ Hlib Hu Hs)
    as (Hk1 & Henh1 & Hu1 & Hs1 & c' & Hc1 & Hmatch).
  assert (Hfirst : first = refine_enhanced originalRefine marked check opts).
  { subst first. unfold refine. by rewrite Henh. }
  rewrite <-Hfirst in Hk1, Henh1, Hu1, Hs1, Hc1.
  assert (Hv1 : extractValidationFromChecks (checks (node_props first)) = Some v).
  { rewrite Hc1, Hc, extractValidationFromChecks_loop, extractValidationLoop_app.
    replace (extractValidationLoop (default [] (checks (node_props X))))
      with (@None EffectValidator); [exact Hmatch|].
    destruct (checks (node_props X)) as [cs|]; [|done].
    by rewrite <-Hnone, extractValidationFromChecks_loop. }
  destruct (refine_chain_invariant originalRefine steps first _ _ v
              Hlib Henh1 Hu1 Hs1 Hv1) as (Hkr & Hur & Hsr & Hvr).
  change (refine_chain originalRefine first steps) with refined in *.
  assert (Hkind' : node_kind refined = node_kind X) by congruence.
  split; [exact Hkind'|].
  subst descriptor. destruct refined as [own_r kind_r].
  cbn [node_props node_kind] in *.
  rewrite <-Hkind' in Hkind.
  split; [|split].
  - by rewrite primitive_validate, Hvr.
  - pose proof (marker_update id own_r kind_r "unique" required def refinement
                  Hkind eq_refl) as H.
    rewrite parseField_enhanced in H. cbn [id] in H. by rewrite H, Hur.
  - pose proof (marker_update id own_r kind_r "sparse" required def refinement
                  Hkind eq_refl) as H.
    rewrite parseField_enhanced in H. cbn [id] in H. by rewrite H, Hsr.
Qed.

Lemma refinement_chain_keeps_first_witness :
  let refined :=
    refine_chain Library.refine (sparse (unique Sample.num None) (Some false))
      [(Closure 1, OptsString "positive"); (Closure 2, OptsObject None);
       (Closure 3, OptsUndefined)] in
  primitive_kind (node_kind Sample.num) = true
  ∧ descriptor_prop "validate" (parseField refined true None None)
    = Some (VValidate {| validator := Closure 1; message := Some "positive" |}).
Proof.
  intros refined. split; [reflexivity|].
  exact (proj1 (proj2 (refinement_chain_keeps_first Library.refine Sample.num
                         None (Some false) (Closure 1) (OptsString "positive")
                         [(Closure 2, OptsObject None); (Closure 3, OptsUndefined)]
                         true None None
                         library_refine_appends eq_refl eq_refl))).
Defined.

(** ** The flags of an Effects node *)

Lemma leaf_has_type X required def refinement :
  leaf_kind (node_kind X) = true →
  ∃ o, parseField X required def refinement = Ok (Some o)
       ∧ is_Some (o !! "type").
Proof.
  destruct X as [own kind]; destruct kind; try discriminate; intros _;
    (eexists; split; [reflexivity|]);
    unfold parseObjectId, parseUUID, parseNumber, parseString, parseEnum,
      parseBoolean, parseDate, parseMixed;
    rewrite ?set_validate_lookup_ne, ?set_ref_lookup_ne by done; by eexists.
Qed.

(** X15. The [unique] and [sparse] of the descriptor of an Effects node are
    the attributes of the node directly underneath it (false when absent),
    not those of the leaf that node wraps: markers set on a leaf are lost
    when a wrapper stands between the leaf and the Effects node. Every
    other property is the one the underlying node translates to under the
    definition object. *)
Theorem effect_flags_from_underlying
    own type in_ schema ws X key required def refinement :
  leaf_kind (node_kind X) = true →
  js_or in_ schema = Some (wrap ws X) →
  refined_primitive type || transformation type = true →
  let original := wrap ws X in
  descriptor_prop key
    (parseField (ZNode own (KEffects type in_ schema)) required def refinement)
  = (if bool_decide (key = "unique")
     then Some (VBool (default false (__zm_unique (node_props original))))
     else if bool_decide (key = "sparse")
     then Some (VBool (default false (__zm_sparse (node_props original))))
     else descriptor_prop key
            (parseField original required (Some (DefaultDef type in_ schema))
               refinement)).
Proof.
  intros Hleaf Horig Htype original.
  rewrite (effect_branch_passes_definition own type in_ schema original
             required def refinement Horig Htype).
  subst original.
  destruct (wrap_reaches ws X required (Some (DefaultDef type in_ schema))
              refinement) as (r & d & v & ->).
  destruct (leaf_has_type X r d v Hleaf) as (o & -> & Hhas).
  simpl. rewrite (bool_decide_eq_true_2 _ Hhas). simpl.
  rewrite !lookup_insert.
  repeat case_decide; repeat case_bool_decide; congruence.
Qed.

Lemma effect_flags_from_underlying_witness :
  let ws := [WOptional (Sample.plain "ZodOptional")] in
  let X := unique Sample.str None in
  let field := ZNode (Sample.plain "ZodTransform")
                 (KEffects "transform" (Some (wrap ws X)) None) in
  leaf_kind (node_kind X) = true
  ∧ descriptor_prop "unique" (parseField X true None None) = Some (VBool true)
  ∧ descriptor_prop "unique" (parseField field true None None)
    = Some (VBool false).
Proof.
  intros ws X field. split; [reflexivity|]. split; [reflexivity|].
  exact (effect_flags_from_underlying (Sample.plain "ZodTransform") "transform"
           (Some (wrap ws X)) None ws X "unique" true None None
           eq_refl eq_refl eq_refl).
Defined.
